(** * Disaster-relief crowdfunding ledger: a shallow embedding of
      [admin_address::backend] (src/backend/backend.move) and the
      properties of its campaign registry, donation accounting and
      withdrawal paths.

    The Move module keeps two resources under the fixed address
    [@admin_address]: a [CampaignStore] (the vector of campaigns and a
    creation counter) and a [CampaignFunds] (one coin holding every
    escrowed donation).  Entry functions are modelled in a state monad
    whose aborts keep the state reached so far; a transaction commits the
    writes of a call that returns and discards those of a call that
    aborts, which is what the Move VM does. *)

From Stdlib Require Import NArith Lia Sorting.Sorted Ascii.
From stdpp Require Import gmap list strings.

Open Scope N_scope.

(** ** Values *)

(** A Move [address] (32 bytes) as a number. *)
Abbreviation address := N (only parsing).

(** [u64] values are numbers below [2^64]; arithmetic on them aborts when
    the result does not fit (see [checked_add]). *)
Definition MAX_U64 : N := 18446744073709551615.

(** The named address [@admin_address]; the frontend's [ADMIN_ADDRESS]
    (src/frontend/App.tsx) gives the deployed value. *)
Definition admin_address : address :=
  0x19e69cef4912141bca40c0ac643684683de4c5ad7ed857450a8cb518c94ffb8a.

(** Error codes of the module. *)
Definition E_NOT_OWNER : N := 1.
Definition E_CAMPAIGN_NOT_FOUND : N := 2.
Definition E_CAMPAIGN_COMPLETED : N := 3.
Definition E_INSUFFICIENT_FUNDS : N := 4.
Definition E_GOAL_NOT_REACHED : N := 5.
Definition E_ALREADY_WITHDRAWN : N := 6.

(** Why a call stopped: an [assert!] of this module with its code, or an
    abort raised below it (by the VM or by the coin module). *)
Inductive abort_kind : Type :=
  | Abort (code : N)            (* assert!(cond, code) failed *)
  | MISSING_DATA                (* borrow_global on an absent resource *)
  | ARITHMETIC_ERROR            (* u64 overflow *)
  | EINDEX_OUT_OF_BOUNDS        (* vector::borrow past the end *)
  | EINSUFFICIENT_BALANCE.      (* coin::withdraw / coin::extract *)

(** [struct Campaign]. *)
Record Campaign : Type := mkCampaign {
  owner : address;
  title : list Byte.byte;
  description : list Byte.byte;
  goal : N;
  donated : N;
  completed : bool;
  withdrawn : bool
}.

(** [struct CampaignStore]. *)
Record CampaignStore : Type := mkCampaignStore {
  campaigns : list Campaign;
  next_id : N
}.

(** [struct CampaignFunds]; a [coin::Coin<AptosCoin>] is its value. *)
Record CampaignFunds : Type := mkCampaignFunds {
  funds : N
}.

(** Global storage: the two resources of this module, keyed by the
    address that holds them, and the coin balances of the accounts. *)
Record Global : Type := mkGlobal {
  store_at : gmap address CampaignStore;
  funds_at : gmap address CampaignFunds;
  coin_store : gmap address N
}.

Definition set_donated (v : N) (c : Campaign) : Campaign :=
  mkCampaign (owner c) (title c) (description c) (goal c) v
             (completed c) (withdrawn c).

Definition set_completed (b : bool) (c : Campaign) : Campaign :=
  mkCampaign (owner c) (title c) (description c) (goal c) (donated c)
             b (withdrawn c).

Definition set_withdrawn (b : bool) (c : Campaign) : Campaign :=
  mkCampaign (owner c) (title c) (description c) (goal c) (donated c)
             (completed c) b.

Definition set_store_at (m : gmap N CampaignStore) (g : Global) : Global :=
  mkGlobal m (funds_at g) (coin_store g).

Definition set_funds_at (m : gmap N CampaignFunds) (g : Global) : Global :=
  mkGlobal (store_at g) m (coin_store g).

Definition set_coin_store (m : gmap N N) (g : Global) : Global :=
  mkGlobal (store_at g) (funds_at g) m.

(** ** The execution monad *)

Inductive result (A : Type) : Type :=
  | Ok (a : A)
  | Aborted (e : abort_kind).
Arguments Ok {A} a.
Arguments Aborted {A} e.

(** A computation reads and writes global storage; when it aborts, the
    storage it returns is the one reached at the abort, writes included. *)
Definition M (A : Type) : Type := Global -> Global * result A.

Definition ret {A : Type} (a : A) : M A := fun g => (g, Ok a).

Definition bind {A B : Type} (m : M A) (k : A -> M B) : M B :=
  fun g =>
    match m g with
    | (g', Ok a) => k a g'
    | (g', Aborted e) => (g', Aborted e)
    end.

Definition abort {A : Type} (e : abort_kind) : M A := fun g => (g, Aborted e).

Declare Scope move_scope.
Delimit Scope move_scope with move.
Notation "x <- m ;; k" := (bind m (fun x => k))
  (at level 100, m at next level, right associativity) : move_scope.
Notation "m ;; k" := (bind m (fun _ => k))
  (at level 100, right associativity) : move_scope.
Open Scope move_scope.

(** [assert!(cond, code)]. *)
Definition assert_ (cond : bool) (code : N) : M unit :=
  if cond then ret tt else abort (Abort code).

(** [a + b] on [u64]. *)
Definition checked_add (a b : N) : M N :=
  if a + b <=? MAX_U64 then ret (a + b) else abort ARITHMETIC_ERROR.

(** The Move VM around an entry function: a call that returns commits
    its storage, a call that aborts leaves storage as it was. *)
Definition commit {A : Type} (m : M A) (g : Global) : Global :=
  match m g with
  | (g', Ok _) => g'
  | (_, Aborted _) => g
  end.

(** ** Storage primitives *)

(** [exists<CampaignStore>(a)] and [exists<CampaignFunds>(a)]. *)
Definition exists_store (a : N) : M bool :=
  fun g => (g, Ok (bool_decide (is_Some (store_at g !! a)))).

Definition exists_funds (a : N) : M bool :=
  fun g => (g, Ok (bool_decide (is_Some (funds_at g !! a)))).

(** [move_to(signer, resource)]; both uses are guarded by [!exists]. *)
Definition move_to_store (a : N) (st : CampaignStore) : M unit :=
  fun g => (set_store_at (<[a := st]> (store_at g)) g, Ok tt).

Definition move_to_funds (a : N) (f : CampaignFunds) : M unit :=
  fun g => (set_funds_at (<[a := f]> (funds_at g)) g, Ok tt).

(** [borrow_global<CampaignStore>(@admin_address)], also the [_mut] one:
    reading what the reference points to. *)
Definition borrow_store : M CampaignStore :=
  fun g =>
    match store_at g !! admin_address with
    | Some st => (g, Ok st)
    | None => (g, Aborted MISSING_DATA)
    end.

Definition borrow_funds : M CampaignFunds :=
  fun g =>
    match funds_at g !! admin_address with
    | Some f => (g, Ok f)
    | None => (g, Aborted MISSING_DATA)
    end.

(** A write through the mutable reference to the store. *)
Definition modify_store (f : CampaignStore -> CampaignStore) : M unit :=
  fun g => (set_store_at (alter f admin_address (store_at g)) g, Ok tt).

(** A write through [vector::borrow_mut(&mut store.campaigns, i)]. *)
Definition modify_campaign (i : N) (f : Campaign -> Campaign) : M unit :=
  modify_store (fun st =>
    mkCampaignStore (alter f (N.to_nat i) (campaigns st)) (next_id st)).

(** [vector::borrow(v, i)]. *)
Definition vector_borrow (v : list Campaign) (i : N) : M Campaign :=
  match v !! N.to_nat i with
  | Some c => ret c
  | None => abort EINDEX_OUT_OF_BOUNDS
  end.

(** [vector::length(v)]. *)
Definition vector_length (v : list Campaign) : N := N.of_nat (length v).

(** ** The coin module *)

(** [aptos_framework::coin], the currency-transfer collaborator the
    module calls, is not part of this repository.  Its five operations
    follow the contract the spec gives for them (section 6): they are
    atomic and overflow-safe, so coin values are unbounded numbers here,
    and a debit fails on insufficient funds. *)
Module coin.

(** Modelled from the spec: [coin::zero<AptosCoin>()], the empty coin. *)
Definition zero : N := 0.

(** Modelled from the spec: the coins an account holds, none for an
    account never credited. *)
Definition balance (a : address) (g : Global) : N :=
  default 0 (coin_store g !! a).

(** Modelled from the spec: [coin::withdraw<AptosCoin>(signer, amount)],
    the debit; it fails on insufficient funds and then changes nothing. *)
Definition withdraw (a : address) (amount : N) : M N :=
  fun g =>
    if amount <=? balance a g
    then (set_coin_store (<[a := balance a g - amount]> (coin_store g)) g,
          Ok amount)
    else (g, Aborted EINSUFFICIENT_BALANCE).

(** Modelled from the spec: [coin::deposit(addr, coin)], the credit. *)
Definition deposit (a : address) (c : N) : M unit :=
  fun g =>
    (set_coin_store (<[a := balance a g + c]> (coin_store g)) g, Ok tt).

(** Modelled from the spec: [coin::merge(&mut funds_store.funds, coin)],
    on the funds held at [@admin_address]. *)
Definition merge (c : N) : M unit :=
  fun g =>
    (set_funds_at
       (alter (fun f => mkCampaignFunds (funds f + c)) admin_address
              (funds_at g)) g,
     Ok tt).

(** Modelled from the spec: [coin::extract(&mut funds_store.funds,
    amount)], on the funds held at [@admin_address]; taking more out of a
    coin than it holds stops the call, as a debit does. *)
Definition extract (amount : N) : M N :=
  fun g =>
    match funds_at g !! admin_address with
    | Some f =>
        if amount <=? funds f
        then (set_funds_at
                (<[admin_address := mkCampaignFunds (funds f - amount)]>
                   (funds_at g)) g,
              Ok amount)
        else (g, Aborted EINSUFFICIENT_BALANCE)
    | None => (g, Aborted MISSING_DATA)
    end.

End coin.

(** ** Entry functions *)

(** [public entry fun initialize(admin: &signer)]. *)
Definition initialize (admin : address) : M unit :=
  let admin_addr := admin in
  has_store <- exists_store admin_addr ;;
  (if negb has_store
   then move_to_store admin_addr (mkCampaignStore [] 0)
   else ret tt) ;;
  has_funds <- exists_funds admin_addr ;;
  (if negb has_funds
   then move_to_funds admin_addr (mkCampaignFunds coin.zero)
   else ret tt).

(** [public entry fun create_campaign(creator, title, description, goal)]. *)
Definition create_campaign (creator : address)
    (title description : list Byte.byte)
    (goal : N) : M unit :=
  let creator_addr := creator in
  store <- borrow_store ;;
  let campaign :=
    mkCampaign creator_addr title description goal 0 false false in
  modify_store (fun st =>
    mkCampaignStore (campaigns st ++ [campaign]) (next_id st)) ;;
  n <- checked_add (next_id store) 1 ;;
  modify_store (fun st => mkCampaignStore (campaigns st) n).

(** [public entry fun donate(donor, campaign_index, amount)]. *)
Definition donate (donor : address) (campaign_index amount : N) : M unit :=
  store <- borrow_store ;;
  assert_ (campaign_index <? vector_length (campaigns store))
          E_CAMPAIGN_NOT_FOUND ;;
  campaign <- vector_borrow (campaigns store) campaign_index ;;
  assert_ (negb (completed campaign)) E_CAMPAIGN_COMPLETED ;;
  donation <- coin.withdraw donor amount ;;
  borrow_funds ;;
  coin.merge donation ;;
  new_donated <- checked_add (donated campaign) amount ;;
  modify_campaign campaign_index (set_donated new_donated) ;;
  if goal campaign <=? new_donated
  then modify_campaign campaign_index (set_completed true)
  else ret tt.

(** [public entry fun withdraw(owner, campaign_index)]. *)
Definition withdraw (owner_signer : address) (campaign_index : N) : M unit :=
  let owner_addr := owner_signer in
  store <- borrow_store ;;
  assert_ (campaign_index <? vector_length (campaigns store))
          E_CAMPAIGN_NOT_FOUND ;;
  campaign <- vector_borrow (campaigns store) campaign_index ;;
  assert_ (owner campaign =? owner_addr) E_NOT_OWNER ;;
  assert_ (completed campaign) E_GOAL_NOT_REACHED ;;
  assert_ (negb (withdrawn campaign)) E_ALREADY_WITHDRAWN ;;
  borrow_funds ;;
  let withdrawal_amount := donated campaign in
  coins_to_withdraw <- coin.extract withdrawal_amount ;;
  coin.deposit owner_addr coins_to_withdraw ;;
  modify_campaign campaign_index (set_withdrawn true).

(** [public entry fun admin_withdraw(admin, campaign_index)]. *)
Definition admin_withdraw (admin : address) (campaign_index : N) : M unit :=
  let admin_addr := admin in
  assert_ (admin_addr =? admin_address) E_NOT_OWNER ;;
  store <- borrow_store ;;
  assert_ (campaign_index <? vector_length (campaigns store))
          E_CAMPAIGN_NOT_FOUND ;;
  campaign <- vector_borrow (campaigns store) campaign_index ;;
  assert_ (negb (withdrawn campaign)) E_ALREADY_WITHDRAWN ;;
  borrow_funds ;;
  let withdrawal_amount := donated campaign in
  coins_to_withdraw <- coin.extract withdrawal_amount ;;
  coin.deposit (owner campaign) coins_to_withdraw ;;
  modify_campaign campaign_index (set_withdrawn true).

(** ** View functions *)

(** [public fun get_campaign_count(): u64]. *)
Definition get_campaign_count : M N :=
  has_store <- exists_store admin_address ;;
  if negb has_store then ret 0
  else
    store <- borrow_store ;;
    ret (vector_length (campaigns store)).

(** [public fun get_campaign(index)]. *)
Definition get_campaign (index : N)
    : M (N * list Byte.byte * list Byte.byte * N * N * bool * bool) :=
  store <- borrow_store ;;
  assert_ (index <? vector_length (campaigns store)) E_CAMPAIGN_NOT_FOUND ;;
  campaign <- vector_borrow (campaigns store) index ;;
  ret (owner campaign, title campaign, description campaign, goal campaign,
       donated campaign, completed campaign, withdrawn campaign).

(** [public fun get_all_campaigns(): vector<Campaign>]. *)
Definition get_all_campaigns : M (list Campaign) :=
  has_store <- exists_store admin_address ;;
  if negb has_store then ret []
  else
    store <- borrow_store ;;
    ret (campaigns store).

(** The loop of [get_campaigns_by_owner],
    [while (i < vector::length(&store.campaigns)) { ... i = i + 1 }],
    entered at index [i] with the indices [found] so far.  [fuel] bounds
    the iterations still allowed; the loop gives [None] when it would
    need more. *)
Fixpoint owner_loop (fuel : nat) (v : list Campaign) (owner_addr : address)
    (i : N) (found : list N) : option (result (list N)) :=
  if i <? vector_length v then
    match fuel with
    | O => None
    | S fuel' =>
        match v !! N.to_nat i with
        | None => Some (Aborted EINDEX_OUT_OF_BOUNDS)
        | Some campaign =>
            let found' :=
              if owner campaign =? owner_addr then found ++ [i] else found in
            if i + 1 <=? MAX_U64
            then owner_loop fuel' v owner_addr (i + 1) found'
            else Some (Aborted ARITHMETIC_ERROR)
        end
    end
  else Some (Ok found).

(** [public fun get_campaigns_by_owner(owner: address): vector<u64>],
    with the fuel of its loop. *)
Definition get_campaigns_by_owner (fuel : nat) (owner_addr : address)
    (g : Global) : option (Global * result (list N)) :=
  match store_at g !! admin_address with
  | None => Some (g, Ok [])
  | Some store =>
      match owner_loop fuel (campaigns store) owner_addr 0 [] with
      | Some r => Some (g, r)
      | None => None
      end
  end.

(** ** Transactions *)

(** The entry calls a transaction can make. *)
Inductive Call : Type :=
  | Initialize (admin : address)
  | CreateCampaign (creator : address) (title description : list Byte.byte)
      (goal : N)
  | Donate (donor : address) (campaign_index amount : N)
  | Withdraw (owner_signer : address) (campaign_index : N)
  | AdminWithdraw (admin : address) (campaign_index : N).

Definition entry (c : Call) : M unit :=
  match c with
  | Initialize a => initialize a
  | CreateCampaign a t d g => create_campaign a t d g
  | Donate a i n => donate a i n
  | Withdraw a i => withdraw a i
  | AdminWithdraw a i => admin_withdraw a i
  end.

(** The arguments typed [u64] fit in 64 bits. *)
Definition valid_call (c : Call) : Prop :=
  match c with
  | Initialize _ => True
  | CreateCampaign _ _ _ g => g <= MAX_U64
  | Donate _ i n => i <= MAX_U64 /\ n <= MAX_U64
  | Withdraw _ i => i <= MAX_U64
  | AdminWithdraw _ i => i <= MAX_U64
  end.

(** One transaction, and a sequence of them. *)
Definition step (c : Call) (g : Global) : Global := commit (entry c) g.

Definition run (cs : list Call) (g : Global) : Global :=
  foldl (fun g c => step c g) g cs.

(** Storage before the module is used: no resource of the module
    anywhere, any coin balances. *)
Definition genesis (balances : gmap N N) : Global := mkGlobal ∅ ∅ balances.

(** The states the module can be in: from [genesis], by transactions on
    the module and by coin movements between accounts outside it. *)
Inductive reachable : Global -> Prop :=
  | reach_genesis (balances : gmap N N) : reachable (genesis balances)
  | reach_step (c : Call) (g : Global) :
      reachable g -> valid_call c -> reachable (step c g)
  | reach_coins (balances : gmap N N) (g : Global) :
      reachable g -> reachable (set_coin_store balances g).

(** ** Reading the state *)

(** The campaign of index [i] in the registry at [@admin_address]. *)
Definition campaign_at (g : Global) (i : N) : option Campaign :=
  match store_at g !! admin_address with
  | Some st => campaigns st !! N.to_nat i
  | None => None
  end.

(** What campaign [c] is still owed from the treasury. *)
Definition owed (c : Campaign) : N :=
  if withdrawn c then 0 else donated c.

(** What the treasury holds for the campaigns not yet paid out. *)
Fixpoint escrowed (l : list Campaign) : N :=
  match l with
  | [] => 0
  | c :: l' => owed c + escrowed l'
  end.

(** The flag [withdrawn] of campaign [i], [false] while it does not exist. *)
Definition withdrawn_at (g : Global) (i : N) : bool :=
  match campaign_at g i with
  | Some c => withdrawn c
  | None => false
  end.

(** The states a run goes through, the first one included. *)
Fixpoint trace (cs : list Call) (g : Global) : list Global :=
  match cs with
  | [] => [g]
  | c :: cs' => g :: trace cs' (step c g)
  end.

(** How many times a flag goes from [false] to [true] along a list of
    its successive values. *)
Fixpoint rises (bs : list bool) : nat :=
  match bs with
  | b :: ((b' :: _) as tl) =>
      ((if negb b && b' then 1 else 0) + rises tl)%nat
  | _ => 0%nat
  end.

Definition is_admin_withdraw (c : Call) : bool :=
  match c with
  | AdminWithdraw _ _ => true
  | _ => false
  end.

(** The treasury exists with the registry and covers what is owed to the
    campaigns not yet paid out. *)
Definition solvent (g : Global) : Prop :=
  forall st, store_at g !! admin_address = Some st ->
    exists f, funds_at g !! admin_address = Some f /\
              escrowed (campaigns st) <= funds f.

(** The creation counter of the registry equals its number of campaigns. *)
Definition counter_matches (g : Global) : Prop :=
  forall st, store_at g !! admin_address = Some st ->
    next_id st = vector_length (campaigns st).

(** Whether a call returns (and so commits) from a state. *)
Definition accepted (c : Call) (g : Global) : bool :=
  match entry c g with
  | (_, Ok _) => true
  | (_, Aborted _) => false
  end.

(** Donations, as (donor, amount), all made to campaign [i]. *)
Definition donations (i : N) (ds : list (N * N)) : list Call :=
  map (fun d => Donate (fst d) i (snd d)) ds.

(** The sum of the amounts of the donations of [ds] that are accepted
    when they are made one after the other from [g]. *)
Fixpoint accepted_total (i : N) (ds : list (N * N)) (g : Global) : N :=
  match ds with
  | [] => 0
  | d :: ds' =>
      (if accepted (Donate (fst d) i (snd d)) g then snd d else 0) +
      accepted_total i ds' (step (Donate (fst d) i (snd d)) g)
  end.

(** Whether campaign [i] has [donated >= goal]. *)
Definition goal_met (g : Global) (i : N) : bool :=
  match campaign_at g i with
  | Some c => goal c <=? donated c
  | None => false
  end.

(** Whether some donation of [ds], made one after the other from [g], is
    accepted and leaves campaign [i] with [donated >= goal]. *)
Fixpoint goal_crossed (i : N) (ds : list (N * N)) (g : Global) : bool :=
  match ds with
  | [] => false
  | d :: ds' =>
      let g' := step (Donate (fst d) i (snd d)) g in
      (accepted (Donate (fst d) i (snd d)) g && goal_met g' i) ||
      goal_crossed i ds' g'
  end.

(** The treasury exists and holds at least [k] beyond what is owed to
    the campaigns not yet paid out. *)
Definition covered (k : N) (g : Global) : Prop :=
  exists st f,
    store_at g !! admin_address = Some st /\
    funds_at g !! admin_address = Some f /\
    escrowed (campaigns st) + k <= funds f.

(** The indices of the campaigns of [v] owned by [o], in order, when the
    first campaign of [v] has index [i]. *)
Fixpoint owned_from (v : list Campaign) (o : address) (i : N) : list N :=
  match v with
  | [] => []
  | c :: v' =>
      (if owner c =? o then [i] else []) ++ owned_from v' o (i + 1)
  end.

(** The fields of a campaign, as [get_campaign] returns them. *)
Definition fields (c : Campaign)
    : N * list Byte.byte * list Byte.byte * N * N * bool * bool :=
  (owner c, title c, description c, goal c, donated c, completed c,
   withdrawn c).

(** The campaign index a call names, if it names one. *)
Definition target (c : Call) : option N :=
  match c with
  | Donate _ i _ => Some i
  | Withdraw _ i => Some i
  | AdminWithdraw _ i => Some i
  | _ => None
  end.

(** [completed] tells whether the goal has been reached: a completed
    campaign has [donated >= goal], one not completed has received
    nothing or less than its goal. *)
Definition completed_reflects_goal (g : Global) : Prop :=
  forall i c, campaign_at g i = Some c ->
    (completed c = true -> goal c <= donated c) /\
    (completed c = false -> donated c = 0 \/ donated c < goal c).

(** Whether call [c], made from [g], is an [admin_withdraw] on campaign
    [i] that returns while the campaign is not completed: a payout forced
    before the goal. *)
Definition forced_payout (i : N) (c : Call) (g : Global) : bool :=
  match c, campaign_at g i with
  | AdminWithdraw _ j, Some ci =>
      (j =? i) && accepted c g && negb (completed ci)
  | _, _ => false
  end.

(** Whether some call of [cs], made one after the other from [g], is
    such a forced payout of campaign [i]. *)
Fixpoint forced_along (i : N) (cs : list Call) (g : Global) : bool :=
  match cs with
  | [] => false
  | c :: cs' => forced_payout i c g || forced_along i cs' (step c g)
  end.

(** What can follow a state: transactions on the module and coin
    movements between accounts outside it. *)
Inductive evolves (g : Global) : Global -> Prop :=
  | evolves_refl : evolves g g
  | evolves_step (c : Call) (g' : Global) :
      evolves g g' -> evolves g (step c g')
  | evolves_coins (balances : gmap N N) (g' : Global) :
      evolves g g' -> evolves g (set_coin_store balances g').

(** ** A worked scenario

    The scenario of the spec (section 8): a campaign "Flood" with goal
    1000 receives 600 and then 500. *)

Definition alice : address := 0xA11CE.
Definition bob : address := 0xB0B.
Definition carol : address := 0xCA201.

Definition flood_title : list Byte.byte :=
  String.list_byte_of_string "Flood"%string.
Definition flood_description : list Byte.byte :=
  String.list_byte_of_string "help"%string.

Definition flood_balances : gmap N N :=
  <[bob := 600]> (<[carol := 500]> ∅).

Definition flood_created : list Call :=
  [Initialize admin_address;
   CreateCampaign alice flood_title flood_description 1000].

Definition flood_calls : list Call :=
  flood_created ++ [Donate bob 0 600; Donate carol 0 500].

(** The campaign right after its creation, after the first donation and
    after the two donations. *)
Definition flood_new : Global := run flood_created (genesis flood_balances).
Definition flood_partial : Global :=
  run (flood_created ++ [Donate bob 0 600]) (genesis flood_balances).
Definition flood_funded : Global := run flood_calls (genesis flood_balances).

(** The administrator pays the campaign out after the first donation. *)
Definition flood_forced : Global :=
  step (AdminWithdraw admin_address 0) flood_partial.

(** The owner withdraws once the goal is reached. *)
Definition flood_paid : Global := step (Withdraw alice 0) flood_funded.

(** ** A campaign of the administrator

    The administrator creates a campaign of its own, which receives 600. *)

Definition own_calls : list Call :=
  [Initialize admin_address;
   CreateCampaign admin_address flood_title flood_description 1000;
   Donate bob 0 600].

Definition own_partial : Global := run own_calls (genesis flood_balances).

(** ** A campaign at the edge of [u64]

    A campaign with the largest goal receives all but one unit of it, the
    administrator pays it out, and its owner holds the payout. *)

Definition edge_balances : gmap N N := <[bob := MAX_U64]> ∅.

Definition edge_calls : list Call :=
  [Initialize admin_address;
   CreateCampaign alice flood_title flood_description MAX_U64;
   Donate bob 0 (MAX_U64 - 1);
   AdminWithdraw admin_address 0].

Definition edge_forced : Global := run edge_calls (genesis edge_balances).

(** ** The frontend's encoding of byte vectors (src/frontend/App.tsx)

    [stringToHex] turns the text of a title or a description into the
    hexadecimal literal passed to [create_campaign] as a [vector<u8>]. *)

(** The digit of value [d] in [Number.prototype.toString(16)]. *)
Definition hex_digit (d : N) : ascii :=
  default "0"%char (String.get (N.to_nat d) "0123456789abcdef").

(** [n.toString(16)] for a natural number [n], most significant digit
    first; [fuel] bounds the number of digits. *)
Fixpoint to_string_16 (fuel : nat) (n : N) : string :=
  match fuel with
  | O => ""
  | S fuel' =>
      if n <? 16 then String (hex_digit n) ""
      else String.append (to_string_16 fuel' (n / 16))
                         (String (hex_digit (n mod 16)) "")
  end.

(** A number has at most as many hexadecimal digits as binary ones. *)
Definition toString16 (n : N) : string :=
  to_string_16 (S (N.to_nat (N.log2 n))) n.

(** [s.padStart(targetLength, pad)] for a pad of one character. *)
Definition padStart (targetLength : nat) (pad : ascii) (s : string) : string :=
  String.append
    (String.string_of_list_ascii (replicate (targetLength - String.length s) pad))
    s.

(** [(b) => b.toString(16).padStart(2, "0")]. *)
Definition byte_to_hex (b : Byte.byte) : string :=
  padStart 2 "0"%char (toString16 (Byte.to_N b)).

(** [stringToHex(str)], on the bytes [new TextEncoder().encode(str)]
    gives for [str]. *)
Definition stringToHex (encoded : list Byte.byte) : string :=
  String.append "0x" (String.concat "" (map byte_to_hex encoded)).

(** The value of a hexadecimal digit, and the bytes a string of pairs of
    digits stands for: the reading that undoes [byte_to_hex]. *)
Definition hex_value (c : ascii) : N :=
  match String.index 0 (String c "") "0123456789abcdef" with
  | Some k => N.of_nat k
  | None => 16
  end.

Fixpoint hex_pairs (s : string) : option (list Byte.byte) :=
  match s with
  | EmptyString => Some []
  | String c1 (String c2 s') =>
      match Byte.of_N (16 * hex_value c1 + hex_value c2), hex_pairs s' with
      | Some b, Some bs => Some (b :: bs)
      | _, _ => None
      end
  | String _ EmptyString => None
  end.

(** Whether a character is one of [0-9a-f]. *)
Definition is_lower_hex (c : ascii) : bool := hex_value c <? 16.

(** ** Proof tools *)

#[global] Arguments admin_address : simpl never.
#[global] Arguments MAX_U64 : simpl never.

(** Unfolds an entry function down to matches on the state. *)
Ltac unfold_entry :=
  unfold donate, withdraw, admin_withdraw, create_campaign, initialize,
    get_campaign, get_campaign_count,
    coin.withdraw, coin.deposit, coin.merge, coin.extract,
    modify_campaign, modify_store, move_to_store, move_to_funds,
    exists_store, exists_funds, borrow_store, borrow_funds,
    vector_borrow, checked_add, assert_, bind, ret, abort.

(** Closes [valid_call] and [Forall valid_call] on concrete calls. *)
Ltac valid_calls :=
  repeat match goal with
    | |- Forall _ _ => constructor
    | |- valid_call _ => cbv [valid_call]
    | |- _ /\ _ => split
    | |- True => exact I
    | |- (_ <= _)%N => vm_compute; discriminate
    end.

(** * Properties *)

Lemma index_in_range (l : list Campaign) (i : N) (c : Campaign) :
  l !! N.to_nat i = Some c -> (i <? vector_length l) = true.
Proof.
  intros H. apply lookup_lt_Some in H. unfold vector_length.
  apply N.ltb_lt. lia.
Qed.

Lemma index_not_found (l : list Campaign) (i : N) :
  l !! N.to_nat i = None -> (i <? vector_length l) = false.
Proof.
  intros H. apply lookup_ge_None in H. unfold vector_length.
  apply N.ltb_ge. lia.
Qed.

Lemma index_past_end (l : list Campaign) (i : N) :
  vector_length l <= i -> (i <? vector_length l) = false.
Proof. intros H. by apply N.ltb_ge. Qed.

Lemma alter_present {V : Type} (f : V -> V) (k : N) (m : gmap N V) (x : V) :
  m !! k = Some x -> alter f k m = <[k := f x]> m.
Proof.
  intros H. apply map_eq. intros j.
  rewrite lookup_alter, lookup_insert.
  case_decide; subst; [by rewrite H | done].
Qed.

Lemma list_alter_present (f : Campaign -> Campaign) (i : nat)
    (l : list Campaign) (c : Campaign) :
  l !! i = Some c -> alter f i l = <[i := f c]> l.
Proof.
  revert i. induction l as [|x l IH]; intros [|i] H; simplify_eq/=; try done.
  f_equal. by apply IH.
Qed.

(** A failing [withdraw] has written nothing by the time it stops. *)
Lemma withdraw_aborts_clean (o i : N) (g g' : Global) (e : abort_kind) :
  withdraw o i g = (g', Aborted e) -> g' = g.
Proof.
  unfold_entry. intros H.
  repeat (case_match; simplify_eq/=); done.
Qed.

(** [donate] as a decision tree over the state it starts in. *)
Lemma donate_eq (d i n : N) (g : Global) :
  donate d i n g =
  match store_at g !! admin_address with
  | None => (g, Aborted MISSING_DATA)
  | Some st =>
    match campaigns st !! N.to_nat i with
    | None => (g, Aborted (Abort E_CAMPAIGN_NOT_FOUND))
    | Some c =>
      if completed c then (g, Aborted (Abort E_CAMPAIGN_COMPLETED))
      else if n <=? coin.balance d g then
        let g1 :=
          set_coin_store (<[d := coin.balance d g - n]> (coin_store g)) g in
        match funds_at g !! admin_address with
        | None => (g1, Aborted MISSING_DATA)
        | Some f =>
          let g2 :=
            set_funds_at
              (<[admin_address := mkCampaignFunds (funds f + n)]> (funds_at g))
              g1 in
          if donated c + n <=? MAX_U64 then
            (set_store_at
               (<[admin_address :=
                    mkCampaignStore
                      (<[N.to_nat i :=
                           mkCampaign (owner c) (title c) (description c)
                             (goal c) (donated c + n)
                             (goal c <=? donated c + n) (withdrawn c)]>
                         (campaigns st))
                      (next_id st)]> (store_at g)) g2,
             Ok tt)
          else (g2, Aborted ARITHMETIC_ERROR)
        end
      else (g, Aborted EINSUFFICIENT_BALANCE)
    end
  end.
Proof.
  unfold_entry.
  destruct (store_at g !! admin_address) as [st|] eqn:Hst; [|done].
  destruct (campaigns st !! N.to_nat i) as [c|] eqn:Hc.
  - rewrite (index_in_range _ _ _ Hc).
    destruct (completed c) eqn:Hcomp; [done|]. cbn [negb].
    destruct (n <=? coin.balance d g) eqn:Hbal; [|done].
    cbn [funds_at set_coin_store].
    destruct (funds_at g !! admin_address) as [f|] eqn:Hf; [|done].
    cbn [funds_at set_funds_at store_at coin_store].
    destruct (donated c + n <=? MAX_U64) eqn:Hov.
    + rewrite (alter_present _ _ _ _ Hf).
      rewrite (alter_present _ _ _ _ Hst). cbn [campaigns next_id].
      destruct (goal c <=? donated c + n) eqn:Hgoal.
      * cbn [store_at funds_at coin_store set_store_at].
        rewrite alter_insert_eq. cbn [campaigns next_id].
        rewrite list_alter_alter_eq, (list_alter_present _ _ _ _ Hc).
        reflexivity.
      * rewrite (list_alter_present _ _ _ _ Hc).
        unfold set_donated. by rewrite Hcomp.
    + by rewrite (alter_present _ _ _ _ Hf).
  - by rewrite (index_not_found _ _ Hc).
Qed.

(** The state after campaign [i], read as [c], has been paid out to [to]
    from the treasury, read as [f]. *)
Lemma payout_eq (to i : N) (g : Global) (st : CampaignStore) (c : Campaign)
    (f : CampaignFunds) :
  store_at g !! admin_address = Some st ->
  campaigns st !! N.to_nat i = Some c ->
  funds_at g !! admin_address = Some f ->
  (borrow_funds ;;
   coins_to_withdraw <- coin.extract (donated c) ;;
   coin.deposit to coins_to_withdraw ;;
   modify_campaign i (set_withdrawn true)) g =
  if donated c <=? funds f then
    (mkGlobal
       (<[admin_address :=
            mkCampaignStore
              (<[N.to_nat i := set_withdrawn true c]> (campaigns st))
              (next_id st)]> (store_at g))
       (<[admin_address := mkCampaignFunds (funds f - donated c)]> (funds_at g))
       (<[to := coin.balance to g + donated c]> (coin_store g)),
     Ok tt)
  else (g, Aborted EINSUFFICIENT_BALANCE).
Proof.
  intros Hst Hc Hf. unfold_entry. rewrite Hf. cbn beta iota. rewrite Hf.
  destruct (donated c <=? funds f); [|done].
  cbn [store_at set_store_at set_funds_at set_coin_store coin_store funds_at].
  rewrite (alter_present _ _ _ _ Hst). cbn [campaigns next_id].
  by rewrite (list_alter_present _ _ _ _ Hc).
Qed.

(** [withdraw] as a decision tree over the state it starts in. *)
Lemma withdraw_eq (o i : N) (g : Global) :
  withdraw o i g =
  match store_at g !! admin_address with
  | None => (g, Aborted MISSING_DATA)
  | Some st =>
    match campaigns st !! N.to_nat i with
    | None => (g, Aborted (Abort E_CAMPAIGN_NOT_FOUND))
    | Some c =>
      if negb (owner c =? o) then (g, Aborted (Abort E_NOT_OWNER))
      else if negb (completed c) then (g, Aborted (Abort E_GOAL_NOT_REACHED))
      else if withdrawn c then (g, Aborted (Abort E_ALREADY_WITHDRAWN))
      else
        match funds_at g !! admin_address with
        | None => (g, Aborted MISSING_DATA)
        | Some f =>
          if donated c <=? funds f then
            (mkGlobal
               (<[admin_address :=
                    mkCampaignStore
                      (<[N.to_nat i := set_withdrawn true c]> (campaigns st))
                      (next_id st)]> (store_at g))
               (<[admin_address := mkCampaignFunds (funds f - donated c)]>
                  (funds_at g))
               (<[o := coin.balance o g + donated c]> (coin_store g)),
             Ok tt)
          else (g, Aborted EINSUFFICIENT_BALANCE)
        end
    end
  end.
Proof.
  destruct (store_at g !! admin_address) as [st|] eqn:Hst;
    [|by unfold_entry; rewrite Hst].
  destruct (campaigns st !! N.to_nat i) as [c|] eqn:Hc.
  - destruct (funds_at g !! admin_address) as [f|] eqn:Hf.
    + rewrite <- (payout_eq o i g st c f Hst Hc Hf).
      unfold withdraw, bind at 1 2 3 4 5, borrow_store, vector_borrow, assert_.
      rewrite Hst, (index_in_range _ _ _ Hc), Hc. unfold ret at 1 2.
      destruct (owner c =? o); [|done].
      destruct (completed c); [|done].
      destruct (withdrawn c); done.
    + unfold_entry. rewrite Hst, (index_in_range _ _ _ Hc), Hc.
      destruct (owner c =? o); [|done].
      destruct (completed c); [|done].
      destruct (withdrawn c); [done|]. cbn [negb]. by rewrite Hf.
  - unfold_entry. by rewrite Hst, (index_not_found _ _ Hc).
Qed.

(** [admin_withdraw] as a decision tree over the state it starts in. *)
Lemma admin_withdraw_eq (a i : N) (g : Global) :
  admin_withdraw a i g =
  if negb (a =? admin_address) then (g, Aborted (Abort E_NOT_OWNER))
  else
    match store_at g !! admin_address with
    | None => (g, Aborted MISSING_DATA)
    | Some st =>
      match campaigns st !! N.to_nat i with
      | None => (g, Aborted (Abort E_CAMPAIGN_NOT_FOUND))
      | Some c =>
        if withdrawn c then (g, Aborted (Abort E_ALREADY_WITHDRAWN))
        else
          match funds_at g !! admin_address with
          | None => (g, Aborted MISSING_DATA)
          | Some f =>
            if donated c <=? funds f then
              (mkGlobal
                 (<[admin_address :=
                      mkCampaignStore
                        (<[N.to_nat i := set_withdrawn true c]> (campaigns st))
                        (next_id st)]> (store_at g))
                 (<[admin_address := mkCampaignFunds (funds f - donated c)]>
                    (funds_at g))
                 (<[owner c := coin.balance (owner c) g + donated c]>
                    (coin_store g)),
               Ok tt)
            else (g, Aborted EINSUFFICIENT_BALANCE)
          end
      end
    end.
Proof.
  destruct (a =? admin_address) eqn:Ha;
    [|by unfold_entry; rewrite Ha].
  cbn [negb].
  destruct (store_at g !! admin_address) as [st|] eqn:Hst;
    [|by unfold_entry; rewrite Ha, Hst].
  destruct (campaigns st !! N.to_nat i) as [c|] eqn:Hc.
  - destruct (funds_at g !! admin_address) as [f|] eqn:Hf.
    + rewrite <- (payout_eq (owner c) i g st c f Hst Hc Hf).
      unfold admin_withdraw, bind at 1 2 3 4 5, borrow_store, vector_borrow,
        assert_.
      repeat (progress cbn beta iota || rewrite Ha || rewrite Hst
              || rewrite (index_in_range _ _ _ Hc) || rewrite Hc
              || unfold ret at 1).
      destruct (withdrawn c); done.
    + unfold_entry.
      repeat (progress cbn beta iota || rewrite Ha || rewrite Hst
              || rewrite (index_in_range _ _ _ Hc) || rewrite Hc).
      destruct (withdrawn c); [done|]. cbn [negb]. by rewrite Hf.
  - unfold_entry.
    repeat (progress cbn beta iota || rewrite Ha || rewrite Hst
            || rewrite (index_not_found _ _ Hc)).
    done.
Qed.

(** [create_campaign] as a decision tree over the state it starts in. *)
Lemma create_campaign_eq (a : N) (t d : list Byte.byte) (gl : N) (g : Global) :
  create_campaign a t d gl g =
  match store_at g !! admin_address with
  | None => (g, Aborted MISSING_DATA)
  | Some st =>
    let pushed := campaigns st ++ [mkCampaign a t d gl 0 false false] in
    if next_id st + 1 <=? MAX_U64 then
      (set_store_at
         (<[admin_address := mkCampaignStore pushed (next_id st + 1)]>
            (store_at g)) g,
       Ok tt)
    else
      (set_store_at
         (<[admin_address := mkCampaignStore pushed (next_id st)]>
            (store_at g)) g,
       Aborted ARITHMETIC_ERROR)
  end.
Proof.
  unfold_entry.
  destruct (store_at g !! admin_address) as [st|] eqn:Hst; [|done].
  rewrite (alter_present _ _ _ _ Hst). cbn [campaigns next_id].
  destruct (next_id st + 1 <=? MAX_U64); [|done].
  cbn [store_at set_store_at]. rewrite alter_insert_eq.
  reflexivity.
Qed.

(** [initialize] never aborts; it adds what is missing at the signer's
    address and nothing else. *)
Lemma initialize_eq (a : N) (g : Global) :
  initialize a g =
  (mkGlobal
     (match store_at g !! a with
      | Some _ => store_at g
      | None => <[a := mkCampaignStore [] 0]> (store_at g)
      end)
     (match funds_at g !! a with
      | Some _ => funds_at g
      | None => <[a := mkCampaignFunds 0]> (funds_at g)
      end)
     (coin_store g),
   Ok tt).
Proof.
  unfold_entry.
  destruct (store_at g !! a) as [st|] eqn:Hs;
    destruct (funds_at g !! a) as [f|] eqn:Hf.
  all: repeat (progress cbn [negb store_at funds_at set_store_at]
               || (rewrite bool_decide_true by eauto)
               || (rewrite bool_decide_false by (intros [? ?]; congruence))).
  all: by destruct g.
Qed.

(** ** The escrow sum *)

Lemma escrowed_app (l k : list Campaign) :
  escrowed (l ++ k) = escrowed l + escrowed k.
Proof. induction l as [|c l IH]; simpl; [done|]. rewrite IH. lia. Qed.

Lemma escrowed_insert (l : list Campaign) (i : nat) (c c' : Campaign) :
  l !! i = Some c ->
  escrowed (<[i := c']> l) + owed c = escrowed l + owed c'.
Proof.
  revert i. induction l as [|x l IH]; intros [|i] H; simplify_eq/=.
  - unfold owed. lia.
  - specialize (IH _ H). lia.
Qed.

Lemma escrowed_covers (l : list Campaign) (i : nat) (c : Campaign) :
  l !! i = Some c -> owed c <= escrowed l.
Proof.
  revert i. induction l as [|x l IH]; intros [|i] H; simplify_eq/=.
  - unfold owed. lia.
  - specialize (IH _ H). lia.
Qed.

(** ** Invariants of the reachable states *)

(** Whatever the treasury holds beyond what is owed to the campaigns not
    yet paid out stays in it: no transaction lowers the difference. *)
Lemma covered_step (k : N) (c : Call) (g : Global) (st : CampaignStore)
    (f : CampaignFunds) :
  store_at g !! admin_address = Some st ->
  funds_at g !! admin_address = Some f ->
  escrowed (campaigns st) + k <= funds f ->
  exists st' f',
    store_at (step c g) !! admin_address = Some st' /\
    funds_at (step c g) !! admin_address = Some f' /\
    escrowed (campaigns st') + k <= funds f'.
Proof.
  intros Hst Hf Hle.
  assert (exists st' f',
            store_at g !! admin_address = Some st' /\
            funds_at g !! admin_address = Some f' /\
            escrowed (campaigns st') + k <= funds f') as Hsame by eauto.
  unfold step, commit. destruct c as [a|a t d gl|a i n|a i|a i];
    cbn [entry].
  - rewrite initialize_eq. cbn [store_at funds_at].
    destruct (decide (a = admin_address)) as [->|Hne].
    + by rewrite Hst, Hf.
    + destruct (store_at g !! a), (funds_at g !! a);
        rewrite ?lookup_insert_ne by done; exact Hsame.
  - rewrite create_campaign_eq, Hst.
    cbn zeta. destruct (next_id st + 1 <=? MAX_U64); [|exact Hsame].
    cbn [store_at funds_at set_store_at].
    rewrite lookup_insert_eq. eexists _, f. split; [done|]. split; [done|].
    cbn [campaigns]. rewrite escrowed_app. cbn. lia.
  - rewrite donate_eq, Hst.
    destruct (campaigns st !! N.to_nat i) as [c|] eqn:Hc; [|exact Hsame].
    destruct (completed c); [exact Hsame|].
    destruct (n <=? coin.balance a g); [|exact Hsame].
    rewrite Hf. cbn zeta.
    destruct (donated c + n <=? MAX_U64); [|exact Hsame].
    cbn [store_at funds_at set_store_at set_funds_at set_coin_store].
    rewrite !lookup_insert_eq. eexists _, _. split; [done|]. split; [done|].
    cbn [campaigns funds].
    pose proof (escrowed_insert _ _ _
      (mkCampaign (owner c) (title c) (description c) (goal c)
         (donated c + n) (goal c <=? donated c + n) (withdrawn c)) Hc) as He.
    unfold owed in He. cbn [withdrawn donated] in He.
    destruct (withdrawn c); lia.
  - rewrite withdraw_eq, Hst.
    destruct (campaigns st !! N.to_nat i) as [c|] eqn:Hc; [|exact Hsame].
    destruct (negb (owner c =? a)); [exact Hsame|].
    destruct (negb (completed c)); [exact Hsame|].
    destruct (withdrawn c) eqn:Hw; [exact Hsame|].
    rewrite Hf.
    destruct (donated c <=? funds f) eqn:Hd; [|exact Hsame].
    cbn [store_at funds_at].
    rewrite !lookup_insert_eq. eexists _, _. split; [done|]. split; [done|].
    cbn [campaigns funds].
    pose proof (escrowed_insert _ _ _ (set_withdrawn true c) Hc) as He.
    unfold owed in He. cbn [withdrawn donated set_withdrawn] in He.
    rewrite Hw in He. apply N.leb_le in Hd. lia.
  - rewrite admin_withdraw_eq, Hst.
    destruct (negb (a =? admin_address)); [exact Hsame|].
    destruct (campaigns st !! N.to_nat i) as [c|] eqn:Hc; [|exact Hsame].
    destruct (withdrawn c) eqn:Hw; [exact Hsame|].
    rewrite Hf.
    destruct (donated c <=? funds f) eqn:Hd; [|exact Hsame].
    cbn [store_at funds_at].
    rewrite !lookup_insert_eq. eexists _, _. split; [done|]. split; [done|].
    cbn [campaigns funds].
    pose proof (escrowed_insert _ _ _ (set_withdrawn true c) Hc) as He.
    unfold owed in He. cbn [withdrawn donated set_withdrawn] in He.
    rewrite Hw in He. apply N.leb_le in Hd. lia.
Qed.

(** Only [initialize], called by [@admin_address], creates the registry. *)
Lemma registry_created (c : Call) (g : Global) (st : CampaignStore) :
  store_at g !! admin_address = None ->
  store_at (step c g) !! admin_address = Some st ->
  c = Initialize admin_address /\ st = mkCampaignStore [] 0 /\
  is_Some (funds_at (step c g) !! admin_address).
Proof.
  intros Hnone. unfold step, commit.
  destruct c as [a|a t d gl|a i n|a i|a i]; cbn [entry].
  - rewrite initialize_eq. cbn [store_at funds_at].
    destruct (decide (a = admin_address)) as [->|Hne].
    + rewrite Hnone, lookup_insert_eq. intros [= <-].
      split; [done|]. split; [done|].
      destruct (funds_at g !! admin_address) eqn:Hf;
        rewrite ?lookup_insert_eq, ?Hf; eauto.
    + destruct (store_at g !! a);
        rewrite ?lookup_insert_ne by done; congruence.
  - rewrite create_campaign_eq, Hnone. congruence.
  - rewrite donate_eq, Hnone. congruence.
  - rewrite withdraw_eq, Hnone. congruence.
  - rewrite admin_withdraw_eq, Hnone.
    destruct (negb (a =? admin_address)); cbn beta iota; congruence.
Qed.

Lemma solvent_step (c : Call) (g : Global) : solvent g -> solvent (step c g).
Proof.
  intros Hs st' Hst'.
  destruct (store_at g !! admin_address) as [st|] eqn:Hst.
  - destruct (Hs _ Hst) as (f & Hf & Hle).
    destruct (covered_step 0 c g st f Hst Hf) as (st2 & f2 & Hst2 & Hf2 & Hle2);
      [lia|].
    rewrite Hst2 in Hst'. injection Hst' as ->.
    exists f2. split; [done|]. lia.
  - destruct (registry_created c g st' Hst Hst') as (_ & -> & [f Hf]).
    exists f. split; [done|]. simpl. lia.
Qed.

Lemma reachable_solvent (g : Global) : reachable g -> solvent g.
Proof.
  induction 1 as [b|c g _ IH _|b g _ IH].
  - intros st H. cbn in H. by rewrite lookup_empty in H.
  - by apply solvent_step.
  - exact IH.
Qed.

Lemma reachable_run (cs : list Call) (g : Global) :
  Forall valid_call cs -> reachable g -> reachable (run cs g).
Proof.
  intros Hcs. revert g. induction Hcs as [|c cs Hc _ IH]; intros g Hg.
  - exact Hg.
  - apply IH. by apply reach_step.
Qed.

Lemma flood_calls_valid : Forall valid_call flood_calls.
Proof. valid_calls. Qed.

Lemma flood_partial_reachable : reachable flood_partial.
Proof.
  apply reachable_run; [|apply reach_genesis]. valid_calls.
Qed.

Lemma flood_funded_reachable : reachable flood_funded.
Proof. apply reachable_run; [apply flood_calls_valid|apply reach_genesis]. Qed.

Lemma flood_forced_reachable : reachable flood_forced.
Proof.
  apply reach_step; [apply flood_partial_reachable|]. valid_calls.
Qed.

(** The scenario of the spec, step by step. *)
Example flood_after_first_donation :
  campaign_at flood_partial 0 =
  Some (mkCampaign alice flood_title flood_description 1000 600 false false).
Proof. vm_compute. reflexivity. Qed.

Example flood_after_second_donation :
  campaign_at flood_funded 0 =
  Some (mkCampaign alice flood_title flood_description 1000 1100 true false).
Proof. vm_compute. reflexivity. Qed.

Example flood_after_withdraw :
  campaign_at flood_paid 0 =
    Some (mkCampaign alice flood_title flood_description 1000 1100 true true)
  /\ coin.balance alice flood_paid = 1100
  /\ funds_at flood_paid !! admin_address = Some (mkCampaignFunds 0).
Proof. vm_compute. by repeat split. Qed.

Example flood_withdraw_again :
  snd (withdraw alice 0 flood_paid) = Aborted (Abort E_ALREADY_WITHDRAWN).
Proof. vm_compute. reflexivity. Qed.

(** * The claims *)

(** C2: for a campaign of the registry (index in range), [withdraw] by
    its owner, once [completed] and not yet [withdrawn], succeeds in every
    reachable state: the treasury holds at least [donated], exactly
    [donated] leaves the treasury and is added to the owner's balance,
    and [withdrawn] becomes [true], nothing else changing.  Its checks
    fail in order: [E_NOT_OWNER] when the caller is not the owner, then
    [E_GOAL_NOT_REACHED] when [completed] is [false], then
    [E_ALREADY_WITHDRAWN] when [withdrawn] is [true]. *)
Theorem withdraw_correct (g : Global) (st : CampaignStore) (i caller : N)
    (c : Campaign) :
  reachable g ->
  store_at g !! admin_address = Some st ->
  campaigns st !! N.to_nat i = Some c ->
  (owner c = caller -> completed c = true -> withdrawn c = false ->
   exists f,
     funds_at g !! admin_address = Some f /\
     donated c <= funds f /\
     withdraw caller i g =
       (mkGlobal
          (<[admin_address :=
               mkCampaignStore
                 (<[N.to_nat i := set_withdrawn true c]> (campaigns st))
                 (next_id st)]> (store_at g))
          (<[admin_address := mkCampaignFunds (funds f - donated c)]>
             (funds_at g))
          (<[caller := coin.balance caller g + donated c]> (coin_store g)),
        Ok tt)) /\
  (owner c <> caller ->
   withdraw caller i g = (g, Aborted (Abort E_NOT_OWNER))) /\
  (owner c = caller -> completed c = false ->
   withdraw caller i g = (g, Aborted (Abort E_GOAL_NOT_REACHED))) /\
  (owner c = caller -> completed c = true -> withdrawn c = true ->
   withdraw caller i g = (g, Aborted (Abort E_ALREADY_WITHDRAWN))).
Proof.
  intros Hreach Hst Hc. rewrite withdraw_eq, Hst, Hc.
  repeat split.
  - intros Ho Hcomp Hw.
    destruct (reachable_solvent g Hreach st Hst) as (f & Hf & Hle).
    pose proof (escrowed_covers _ _ _ Hc) as Hcov.
    unfold owed in Hcov. rewrite Hw in Hcov.
    exists f. split; [done|]. split; [lia|].
    rewrite Hf, Hcomp, Hw. apply N.eqb_eq in Ho. rewrite Ho. cbn [negb].
    assert ((donated c <=? funds f) = true) as -> by (apply N.leb_le; lia).
    reflexivity.
  - intros Ho. apply N.eqb_neq in Ho. by rewrite Ho.
  - intros Ho Hcomp. apply N.eqb_eq in Ho. by rewrite Ho, Hcomp.
  - intros Ho Hcomp Hw. apply N.eqb_eq in Ho. by rewrite Ho, Hcomp, Hw.
Qed.

(** The campaign of the scenario once funded, and its registry. *)
Lemma flood_funded_store :
  store_at flood_funded !! admin_address =
  Some (mkCampaignStore
          [mkCampaign alice flood_title flood_description 1000 1100 true false]
          1).
Proof. vm_compute. reflexivity. Qed.

Lemma withdraw_correct_witness :
  snd (withdraw alice 0 flood_funded) = Ok tt /\
  snd (withdraw bob 0 flood_funded) = Aborted (Abort E_NOT_OWNER).
Proof.
  destruct (withdraw_correct flood_funded _ 0 alice _
              flood_funded_reachable flood_funded_store eq_refl)
    as (Hok & _).
  destruct (withdraw_correct flood_funded _ 0 bob _
              flood_funded_reachable flood_funded_store eq_refl)
    as (_ & Hno & _).
  split.
  - destruct (Hok eq_refl eq_refl eq_refl) as (f & _ & _ & ->). reflexivity.
  - rewrite Hno; [reflexivity|]. vm_compute. discriminate.
Defined.

(** C5: whenever [withdraw] fails, for whatever reason, it has written
    nothing by the time it stops, and the transaction leaves storage
    (registry, treasury and balances) exactly as it was. *)
Theorem withdraw_failure_unchanged (caller i : N) (g g' : Global)
    (e : abort_kind) :
  withdraw caller i g = (g', Aborted e) ->
  g' = g /\ step (Withdraw caller i) g = g.
Proof.
  intros H. split.
  - by apply withdraw_aborts_clean in H.
  - unfold step, commit. cbn [entry]. by rewrite H.
Qed.

Lemma withdraw_failure_unchanged_witness :
  step (Withdraw alice 0) flood_partial = flood_partial.
Proof.
  apply (withdraw_failure_unchanged alice 0 flood_partial flood_partial
           (Abort E_GOAL_NOT_REACHED)).
  vm_compute. reflexivity.
Defined.

(** C3, as the code has it: for a campaign of the registry (index in
    range), [admin_withdraw] fails with [E_NOT_OWNER] for every caller
    other than [@admin_address], so it succeeds only for the
    administrator; for the administrator it fails with
    [E_ALREADY_WITHDRAWN] on a campaign already [withdrawn], and otherwise
    succeeds in every reachable state, whatever [completed] is: [donated]
    leaves the treasury and is added to the balance of the campaign's
    owner, and [withdrawn] becomes [true].  The caller receives nothing
    unless it is that owner. *)
Theorem admin_withdraw_correct (g : Global) (st : CampaignStore)
    (i caller : N) (c : Campaign) :
  reachable g ->
  store_at g !! admin_address = Some st ->
  campaigns st !! N.to_nat i = Some c ->
  (caller <> admin_address ->
   admin_withdraw caller i g = (g, Aborted (Abort E_NOT_OWNER))) /\
  (forall g', admin_withdraw caller i g = (g', Ok tt) ->
   caller = admin_address) /\
  (caller = admin_address -> withdrawn c = true ->
   admin_withdraw caller i g = (g, Aborted (Abort E_ALREADY_WITHDRAWN))) /\
  (caller = admin_address -> withdrawn c = false ->
   exists (f : CampaignFunds) (g' : Global),
     admin_withdraw caller i g = (g', Ok tt) /\
     funds_at g !! admin_address = Some f /\
     donated c <= funds f /\
     g' =
       mkGlobal
         (<[admin_address :=
              mkCampaignStore
                (<[N.to_nat i := set_withdrawn true c]> (campaigns st))
                (next_id st)]> (store_at g))
         (<[admin_address := mkCampaignFunds (funds f - donated c)]>
            (funds_at g))
         (<[owner c := coin.balance (owner c) g + donated c]>
            (coin_store g)) /\
     coin.balance (owner c) g' = coin.balance (owner c) g + donated c /\
     (caller <> owner c -> coin.balance caller g' = coin.balance caller g)).
Proof.
  intros Hreach Hst Hc. rewrite admin_withdraw_eq, Hst, Hc.
  repeat split.
  - intros Ha. apply N.eqb_neq in Ha. by rewrite Ha.
  - intros g'. destruct (caller =? admin_address) eqn:Ha.
    + intros _. by apply N.eqb_eq.
    + cbn [negb]. intros [= _].
  - intros Ha Hw. apply N.eqb_eq in Ha. by rewrite Ha, Hw.
  - intros Ha Hw.
    destruct (reachable_solvent g Hreach st Hst) as (f & Hf & Hle).
    pose proof (escrowed_covers _ _ _ Hc) as Hcov.
    unfold owed in Hcov. rewrite Hw in Hcov.
    apply N.eqb_eq in Ha. rewrite Ha, Hw, Hf. cbn [negb].
    assert ((donated c <=? funds f) = true) as -> by (apply N.leb_le; lia).
    eexists f, _. split; [reflexivity|].
    split; [done|]. split; [lia|]. split; [reflexivity|].
    unfold coin.balance. cbn [coin_store]. split.
    + by rewrite lookup_insert_eq.
    + intros Hne. by rewrite lookup_insert_ne.
Qed.

Lemma flood_partial_store :
  store_at flood_partial !! admin_address =
  Some (mkCampaignStore
          [mkCampaign alice flood_title flood_description 1000 600 false false]
          1).
Proof. vm_compute. reflexivity. Qed.

Lemma admin_withdraw_correct_witness :
  snd (admin_withdraw bob 0 flood_partial) = Aborted (Abort E_NOT_OWNER) /\
  snd (admin_withdraw admin_address 0 flood_partial) = Ok tt.
Proof.
  destruct (admin_withdraw_correct flood_partial _ 0 bob _
              flood_partial_reachable flood_partial_store eq_refl)
    as (Hno & _).
  destruct (admin_withdraw_correct flood_partial _ 0 admin_address _
              flood_partial_reachable flood_partial_store eq_refl)
    as (_ & _ & _ & Hok).
  split.
  - rewrite Hno; [reflexivity|]. vm_compute. discriminate.
  - destruct (Hok eq_refl eq_refl) as (f & g' & -> & _). reflexivity.
Defined.

Lemma own_partial_reachable : reachable own_partial.
Proof.
  apply reachable_run; [|apply reach_genesis]. valid_calls.
Qed.

(** C3 as stated does not hold: the administrator pays out its own
    campaign and receives the 600 donated to it. *)
Lemma admin_withdraw_pays_caller_counterexample :
  ~ (forall (g g' : Global) (i caller : N),
       reachable g ->
       admin_withdraw caller i g = (g', Ok tt) ->
       coin.balance caller g' = coin.balance caller g).
Proof.
  intros H.
  specialize (H own_partial (fst (admin_withdraw admin_address 0 own_partial))
                0 admin_address own_partial_reachable).
  assert (coin.balance admin_address
            (fst (admin_withdraw admin_address 0 own_partial)) = 600) as Hpaid
    by (vm_compute; reflexivity).
  assert (coin.balance admin_address own_partial = 0) as Hbefore
    by (vm_compute; reflexivity).
  rewrite Hpaid, Hbefore in H.
  discriminate H. vm_compute. reflexivity.
Qed.

(** C6: with [campaign_index] at or past the number of campaigns,
    [donate] fails with [E_CAMPAIGN_NOT_FOUND], and on a campaign whose
    [completed] flag is [true] it fails with [E_CAMPAIGN_COMPLETED], for
    any donor and amount; both times nothing has been written and the
    transaction leaves every campaign as it was. *)
Theorem donate_rejected (g : Global) (st : CampaignStore)
    (donor i amount : N) :
  store_at g !! admin_address = Some st ->
  (vector_length (campaigns st) <= i ->
   donate donor i amount g = (g, Aborted (Abort E_CAMPAIGN_NOT_FOUND)) /\
   step (Donate donor i amount) g = g) /\
  (forall c, campaigns st !! N.to_nat i = Some c -> completed c = true ->
   donate donor i amount g = (g, Aborted (Abort E_CAMPAIGN_COMPLETED)) /\
   step (Donate donor i amount) g = g).
Proof.
  intros Hst. unfold step, commit. cbn [entry]. rewrite donate_eq, Hst.
  split.
  - intros Hi.
    assert (campaigns st !! N.to_nat i = None) as ->; [|done].
    apply lookup_ge_None. unfold vector_length in Hi. lia.
  - intros c Hc Hcomp. by rewrite Hc, Hcomp.
Qed.

Lemma donate_rejected_witness :
  donate bob 5 10 flood_funded =
    (flood_funded, Aborted (Abort E_CAMPAIGN_NOT_FOUND)) /\
  donate bob 0 10 flood_funded =
    (flood_funded, Aborted (Abort E_CAMPAIGN_COMPLETED)).
Proof.
  destruct (donate_rejected flood_funded _ bob 5 10 flood_funded_store)
    as (Hfar & _).
  destruct (donate_rejected flood_funded _ bob 0 10 flood_funded_store)
    as (_ & Hdone).
  split.
  - apply Hfar. vm_compute. discriminate.
  - apply (Hdone _ eq_refl eq_refl).
Defined.

(** C7, as the code has it: [get_campaign] returns the seven fields of
    the campaign for every index in range and fails with
    [E_CAMPAIGN_NOT_FOUND] for an index past the end of an existing
    registry; before [initialize] it aborts too, returning no default, but
    on the missing resource, not with [E_CAMPAIGN_NOT_FOUND].  It never
    writes. *)
Theorem get_campaign_correct (g : Global) (index : N) :
  (store_at g !! admin_address = None ->
   get_campaign index g = (g, Aborted MISSING_DATA)) /\
  (forall st, store_at g !! admin_address = Some st ->
   vector_length (campaigns st) <= index ->
   get_campaign index g = (g, Aborted (Abort E_CAMPAIGN_NOT_FOUND))) /\
  (forall st c, store_at g !! admin_address = Some st ->
   campaigns st !! N.to_nat index = Some c ->
   get_campaign index g =
     (g, Ok (owner c, title c, description c, goal c, donated c,
             completed c, withdrawn c))).
Proof.
  unfold_entry. repeat split.
  - by intros ->.
  - intros st -> Hi. by rewrite (index_past_end _ _ Hi).
  - intros st c -> Hc. by rewrite (index_in_range _ _ _ Hc), Hc.
Qed.

Lemma get_campaign_correct_witness :
  get_campaign 0 (genesis flood_balances) =
    (genesis flood_balances, Aborted MISSING_DATA) /\
  get_campaign 5 flood_funded =
    (flood_funded, Aborted (Abort E_CAMPAIGN_NOT_FOUND)) /\
  get_campaign 0 flood_funded =
    (flood_funded,
     Ok (alice, flood_title, flood_description, 1000, 1100, true, false)).
Proof.
  destruct (get_campaign_correct (genesis flood_balances) 0) as (H1 & _).
  destruct (get_campaign_correct flood_funded 5) as (_ & H2 & _).
  destruct (get_campaign_correct flood_funded 0) as (_ & _ & H3).
  split; [|split].
  - apply H1. reflexivity.
  - apply (H2 _ flood_funded_store). vm_compute. discriminate.
  - apply (H3 _ _ flood_funded_store eq_refl).
Defined.

(** C7 as stated does not hold: before [initialize] there is no campaign
    at any index, and [get_campaign] does not fail with
    [E_CAMPAIGN_NOT_FOUND]. *)
Lemma get_campaign_uninitialized_counterexample :
  ~ (forall (g : Global) (index : N),
       campaign_at g index = None ->
       snd (get_campaign index g) = Aborted (Abort E_CAMPAIGN_NOT_FOUND)).
Proof.
  intros H. specialize (H (genesis ∅) 0 eq_refl).
  vm_compute in H. discriminate H.
Qed.

(** C8: [initialize] never aborts and is idempotent.  A first call, at
    an address holding neither resource, creates there an empty registry
    (no campaign, counter zero) and a treasury of value zero and changes
    nothing else; a call at an address holding both changes nothing; so a
    second call returns the state of the first unchanged. *)
Theorem initialize_idempotent (admin : N) (g : Global) :
  exists g1,
    initialize admin g = (g1, Ok tt) /\
    initialize admin g1 = (g1, Ok tt) /\
    step (Initialize admin) (step (Initialize admin) g) =
      step (Initialize admin) g /\
    (store_at g !! admin = None -> funds_at g !! admin = None ->
     g1 = mkGlobal (<[admin := mkCampaignStore [] 0]> (store_at g))
                   (<[admin := mkCampaignFunds 0]> (funds_at g))
                   (coin_store g)) /\
    (is_Some (store_at g !! admin) -> is_Some (funds_at g !! admin) ->
     g1 = g).
Proof.
  assert (forall h, exists h1, initialize admin h = (h1, Ok tt) /\
            is_Some (store_at h1 !! admin) /\ is_Some (funds_at h1 !! admin))
    as Hfirst.
  { intros h. rewrite initialize_eq. eexists. split; [reflexivity|].
    cbn [store_at funds_at].
    destruct (store_at h !! admin) eqn:Hs, (funds_at h !! admin) eqn:Hf;
      rewrite ?lookup_insert_eq, ?Hs, ?Hf; eauto. }
  assert (forall h, is_Some (store_at h !! admin) ->
            is_Some (funds_at h !! admin) -> initialize admin h = (h, Ok tt))
    as Hagain.
  { intros h [st Hs] [f Hf]. rewrite initialize_eq, Hs, Hf. by destruct h. }
  destruct (Hfirst g) as (g1 & Hg1 & Hs1 & Hf1).
  exists g1. split; [done|]. split; [by apply Hagain|].
  split; [|split].
  - unfold step, commit. cbn [entry]. rewrite Hg1.
    by rewrite (Hagain g1 Hs1 Hf1).
  - intros Hs Hf. rewrite initialize_eq, Hs, Hf in Hg1. congruence.
  - intros Hs Hf. rewrite (Hagain g Hs Hf) in Hg1. congruence.
Qed.

Lemma initialize_idempotent_witness :
  step (Initialize admin_address)
       (step (Initialize admin_address) (genesis flood_balances)) =
  step (Initialize admin_address) (genesis flood_balances).
Proof.
  destruct (initialize_idempotent admin_address (genesis flood_balances))
    as (g1 & _ & _ & H & _).
  exact H.
Defined.

(** ** How one transaction changes the registry *)

(** A transaction keeps the registry, and either keeps its counter and
    its length or, for a [create_campaign], adds one to both. *)
Lemma step_registry (c : Call) (g : Global) (st : CampaignStore) :
  store_at g !! admin_address = Some st ->
  exists st', store_at (step c g) !! admin_address = Some st' /\
    ((next_id st' = next_id st /\
      vector_length (campaigns st') = vector_length (campaigns st)) \/
     ((exists a t d gl, c = CreateCampaign a t d gl) /\
      next_id st' = next_id st + 1 /\
      vector_length (campaigns st') = vector_length (campaigns st) + 1)).
Proof.
  intros Hst. unfold step, commit.
  destruct c as [a|a t d gl|a i n|a i|a i]; cbn [entry].
  - rewrite initialize_eq. cbn [store_at]. destruct (store_at g !! a) eqn:Ha.
    + exists st. split; [done|]. by left.
    + destruct (decide (a = admin_address)) as [->|Hne]; [congruence|].
      rewrite lookup_insert_ne by done. exists st. split; [done|]. by left.
  - rewrite create_campaign_eq, Hst. cbn zeta.
    destruct (next_id st + 1 <=? MAX_U64).
    + cbn [store_at set_store_at]. rewrite lookup_insert_eq.
      eexists. split; [done|]. right. split; [by eauto|].
      cbn [campaigns next_id]. split; [done|].
      unfold vector_length. rewrite length_app. simpl. lia.
    + exists st. split; [done|]. by left.
  - rewrite donate_eq, Hst.
    repeat (case_match; try (exists st; split; [done|by left])).
    simplify_eq/=. rewrite lookup_insert_eq.
    eexists. split; [done|]. left. cbn [campaigns next_id].
    unfold vector_length. by rewrite length_insert.
  - rewrite withdraw_eq, Hst.
    repeat (case_match; try (exists st; split; [done|by left])).
    simplify_eq/=. rewrite lookup_insert_eq.
    eexists. split; [done|]. left. cbn [campaigns next_id].
    unfold vector_length. by rewrite length_insert.
  - rewrite admin_withdraw_eq, Hst.
    repeat (case_match; try (exists st; split; [done|by left])).
    simplify_eq/=. rewrite lookup_insert_eq.
    eexists. split; [done|]. left. cbn [campaigns next_id].
    unfold vector_length. by rewrite length_insert.
Qed.

Lemma counter_matches_step (c : Call) (g : Global) :
  counter_matches g -> counter_matches (step c g).
Proof.
  intros Hg st' Hst'.
  destruct (store_at g !! admin_address) as [st|] eqn:Hst.
  - destruct (step_registry c g st Hst) as (st2 & Hst2 & Hcase).
    rewrite Hst2 in Hst'. injection Hst' as ->.
    specialize (Hg _ Hst).
    destruct Hcase as [[Hn Hl]|(_ & Hn & Hl)]; lia.
  - revert Hst'. unfold step, commit.
    destruct c as [a|a t d gl|a i n|a i|a i]; cbn [entry].
    + rewrite initialize_eq. cbn [store_at].
      destruct (store_at g !! a) eqn:Ha; [congruence|].
      destruct (decide (a = admin_address)) as [->|Hne].
      * rewrite lookup_insert_eq. by intros [= <-].
      * rewrite lookup_insert_ne by done. congruence.
    + rewrite create_campaign_eq, Hst. congruence.
    + rewrite donate_eq, Hst. congruence.
    + rewrite withdraw_eq, Hst. congruence.
    + rewrite admin_withdraw_eq, Hst.
      destruct (negb (a =? admin_address)); cbn beta iota; congruence.
Qed.

Lemma reachable_counter_matches (g : Global) :
  reachable g -> counter_matches g.
Proof.
  induction 1 as [b|c g _ IH _|b g _ IH].
  - intros st H. cbn in H. by rewrite lookup_empty in H.
  - by apply counter_matches_step.
  - exact IH.
Qed.

(** C10: in every reachable state the creation counter [next_id] equals
    the number of campaigns.  [initialize] starts both at zero.  A
    [create_campaign] on a registry whose counter is below the largest
    [u64] returns and adds exactly one to each; on a full counter it
    aborts and changes neither.  No other call changes either. *)
Theorem counter_tracks_length (g : Global) :
  reachable g ->
  (forall st, store_at g !! admin_address = Some st ->
   next_id st = vector_length (campaigns st)) /\
  (store_at g !! admin_address = None ->
   store_at (step (Initialize admin_address) g) !! admin_address =
     Some (mkCampaignStore [] 0)) /\
  (forall st a t d gl, store_at g !! admin_address = Some st ->
   next_id st < MAX_U64 ->
   exists g' st',
     create_campaign a t d gl g = (g', Ok tt) /\
     step (CreateCampaign a t d gl) g = g' /\
     store_at g' !! admin_address = Some st' /\
     next_id st' = next_id st + 1 /\
     vector_length (campaigns st') = vector_length (campaigns st) + 1) /\
  (forall st a t d gl, store_at g !! admin_address = Some st ->
   MAX_U64 <= next_id st ->
   step (CreateCampaign a t d gl) g = g) /\
  (forall c st, store_at g !! admin_address = Some st ->
   (forall a t d gl, c <> CreateCampaign a t d gl) ->
   exists st', store_at (step c g) !! admin_address = Some st' /\
     next_id st' = next_id st /\
     vector_length (campaigns st') = vector_length (campaigns st)).
Proof.
  intros Hreach. split; [|split; [|split; [|split]]].
  - apply (reachable_counter_matches g Hreach).
  - intros Hnone. unfold step, commit. cbn [entry].
    rewrite initialize_eq, Hnone. cbn [store_at]. by rewrite lookup_insert_eq.
  - intros st a t d gl Hst Hlt. unfold step, commit. cbn [entry].
    rewrite create_campaign_eq, Hst. cbn zeta.
    assert ((next_id st + 1 <=? MAX_U64) = true) as ->
      by (apply N.leb_le; lia).
    eexists _, _. split; [reflexivity|]. split; [reflexivity|].
    cbn [store_at set_store_at]. split; [apply lookup_insert_eq|].
    cbn [next_id campaigns]. split; [done|].
    unfold vector_length. rewrite length_app. cbn. lia.
  - intros st a t d gl Hst Hfull. unfold step, commit. cbn [entry].
    rewrite create_campaign_eq, Hst. cbn zeta.
    by assert ((next_id st + 1 <=? MAX_U64) = false) as ->
      by (apply N.leb_gt; lia).
  - intros c st Hst Hc.
    destruct (step_registry c g st Hst)
      as (st' & Hst' & [[Hn Hl]|((a & t & d & gl & ->) & _)]).
    + by exists st'.
    + by destruct (Hc a t d gl).
Qed.

Lemma counter_tracks_length_witness :
  (exists st, store_at flood_funded !! admin_address = Some st /\
     next_id st = vector_length (campaigns st)) /\
  (exists g' st',
     create_campaign carol [] [] 5 flood_funded = (g', Ok tt) /\
     store_at g' !! admin_address = Some st' /\
     next_id st' = 1 + 1 /\ vector_length (campaigns st') = 1 + 1) /\
  (exists st',
     store_at (step (Donate bob 0 10) flood_funded) !! admin_address =
       Some st' /\
     next_id st' = 1).
Proof.
  destruct (counter_tracks_length flood_funded flood_funded_reachable)
    as (Hinv & _ & Hcreate & _ & Hother).
  split; [|split].
  - eexists. split; [exact flood_funded_store|].
    apply Hinv. exact flood_funded_store.
  - destruct (Hcreate _ carol [] [] 5 flood_funded_store)
      as (g' & st' & Hg' & _ & Hst' & Hn & Hl).
    + vm_compute. reflexivity.
    + exists g', st'. by repeat split.
  - destruct (Hother (Donate bob 0 10) _ flood_funded_store)
      as (st' & Hst' & Hn & _).
    + discriminate.
    + exists st'. by split.
Defined.

(** ** How one transaction changes a campaign *)

Lemma lookup_updated (l : list Campaign) (i j : nat) (c c' cj : Campaign) :
  l !! i = Some c -> l !! j = Some cj ->
  (i = j /\ cj = c /\ <[i := c']> l !! j = Some c') \/
  (i <> j /\ <[i := c']> l !! j = Some cj).
Proof.
  intros Hi Hj. destruct (decide (i = j)) as [->|Hne].
  - left. split; [done|]. split; [congruence|].
    apply list_lookup_insert_eq. by apply lookup_lt_Some in Hj.
  - right. split; [done|]. by rewrite list_lookup_insert_ne.
Qed.

(** A campaign stays in the registry under its index, keeps its owner
    and its goal, never loses donations, and never has [completed] or
    [withdrawn] reset; [withdrawn] is set only on a completed campaign or
    by [admin_withdraw]. *)
Lemma campaign_step (c : Call) (g : Global) (j : N) (cj : Campaign) :
  campaign_at g j = Some cj ->
  exists cj', campaign_at (step c g) j = Some cj' /\
    owner cj' = owner cj /\ goal cj' = goal cj /\
    donated cj <= donated cj' /\
    (completed cj = true -> completed cj' = true) /\
    (withdrawn cj = true -> withdrawn cj' = true) /\
    (withdrawn cj' = true ->
     withdrawn cj = true \/ completed cj' = true \/
     is_admin_withdraw c = true).
Proof.
  unfold campaign_at at 1.
  destruct (store_at g !! admin_address) as [st|] eqn:Hst; [|done].
  intros Hj.
  assert (exists cj', campaign_at g j = Some cj' /\
            owner cj' = owner cj /\ goal cj' = goal cj /\
            donated cj <= donated cj' /\
            (completed cj = true -> completed cj' = true) /\
            (withdrawn cj = true -> withdrawn cj' = true) /\
            (withdrawn cj' = true ->
             withdrawn cj = true \/ completed cj' = true \/
             is_admin_withdraw c = true)) as Hsame.
  { exists cj. unfold campaign_at. rewrite Hst. repeat split; auto; try lia. }
  unfold step, commit.
  destruct c as [a|a t d gl|a i n|a i|a i]; cbn [entry].
  - rewrite initialize_eq. unfold campaign_at. cbn [store_at].
    destruct (store_at g !! a) eqn:Ha.
    + rewrite Hst. exists cj. repeat split; auto; try lia.
    + destruct (decide (a = admin_address)) as [->|Hne]; [congruence|].
      rewrite lookup_insert_ne, Hst by done.
      exists cj. repeat split; auto; try lia.
  - rewrite create_campaign_eq, Hst. cbn zeta.
    destruct (next_id st + 1 <=? MAX_U64); [|exact Hsame].
    unfold campaign_at. cbn [store_at set_store_at].
    rewrite lookup_insert_eq. cbn [campaigns].
    rewrite lookup_app_l by (by apply lookup_lt_Some in Hj). rewrite Hj.
    exists cj. repeat split; auto; try lia.
  - rewrite donate_eq, Hst.
    destruct (campaigns st !! N.to_nat i) as [ci|] eqn:Hi; [|exact Hsame].
    destruct (completed ci) eqn:Hcomp; [exact Hsame|].
    destruct (n <=? coin.balance a g); [|exact Hsame].
    destruct (funds_at g !! admin_address); [|exact Hsame]. cbn zeta.
    destruct (donated ci + n <=? MAX_U64); [|exact Hsame].
    unfold campaign_at. cbn [store_at set_store_at].
    rewrite lookup_insert_eq. cbn [campaigns].
    match goal with |- context [<[_ := ?x]> (campaigns st)] =>
      destruct (lookup_updated _ _ _ _ x _ Hi Hj) as [(_ & -> & ->)|(_ & ->)]
    end.
    + eexists. split; [done|]. cbn. repeat split; auto; try lia; congruence.
    + exists cj. repeat split; auto; try lia.
  - rewrite withdraw_eq, Hst.
    destruct (campaigns st !! N.to_nat i) as [ci|] eqn:Hi; [|exact Hsame].
    destruct (negb (owner ci =? a)); [exact Hsame|].
    destruct (completed ci) eqn:Hcomp; [|exact Hsame]. cbn [negb].
    destruct (withdrawn ci); [exact Hsame|].
    destruct (funds_at g !! admin_address) as [f|]; [|exact Hsame].
    destruct (donated ci <=? funds f); [|exact Hsame].
    unfold campaign_at. cbn [store_at].
    rewrite lookup_insert_eq. cbn [campaigns].
    destruct (lookup_updated _ _ _ _ (set_withdrawn true ci) _ Hi Hj)
      as [(_ & -> & ->)|(_ & ->)].
    + eexists. split; [done|]. cbn. repeat split; auto; try lia.
    + exists cj. repeat split; auto; try lia.
  - rewrite admin_withdraw_eq, Hst.
    destruct (negb (a =? admin_address)); [exact Hsame|].
    destruct (campaigns st !! N.to_nat i) as [ci|] eqn:Hi; [|exact Hsame].
    destruct (withdrawn ci); [exact Hsame|].
    destruct (funds_at g !! admin_address) as [f|]; [|exact Hsame].
    destruct (donated ci <=? funds f); [|exact Hsame].
    unfold campaign_at. cbn [store_at].
    rewrite lookup_insert_eq. cbn [campaigns].
    destruct (lookup_updated _ _ _ _ (set_withdrawn true ci) _ Hi Hj)
      as [(_ & -> & ->)|(_ & ->)].
    + eexists. split; [done|]. cbn. repeat split; auto; try lia.
    + exists cj. repeat split; auto; try lia.
Qed.

(** A campaign that appears in the registry appears neither completed nor
    withdrawn. *)
Lemma campaign_new (c : Call) (g : Global) (j : N) (cj : Campaign) :
  campaign_at g j = None ->
  campaign_at (step c g) j = Some cj ->
  donated cj = 0 /\ completed cj = false /\ withdrawn cj = false.
Proof.
  intros Hnone.
  assert (campaign_at g j = Some cj ->
          donated cj = 0 /\ completed cj = false /\ withdrawn cj = false)
    as Hkeep by congruence.
  revert Hnone. unfold step, commit.
  destruct c as [a|a t d gl|a i n|a i|a i]; cbn [entry].
  - rewrite initialize_eq. unfold campaign_at. cbn [store_at].
    destruct (store_at g !! a) eqn:Ha; [congruence|].
    destruct (decide (a = admin_address)) as [->|Hne].
    + rewrite lookup_insert_eq. cbn. by rewrite lookup_nil.
    + rewrite lookup_insert_ne by done. congruence.
  - rewrite create_campaign_eq.
    destruct (store_at g !! admin_address) as [st|] eqn:Hst;
      [|intros _; exact Hkeep].
    cbn zeta. destruct (next_id st + 1 <=? MAX_U64); [|intros _; exact Hkeep].
    unfold campaign_at. rewrite Hst. cbn [store_at set_store_at].
    rewrite lookup_insert_eq. cbn [campaigns].
    intros Hnone. rewrite lookup_app_r by (by apply lookup_ge_None).
    intros Hnew. apply list_lookup_singleton_Some in Hnew as [_ <-]. done.
  - rewrite donate_eq.
    destruct (store_at g !! admin_address) as [st|] eqn:Hst;
      [|intros _; exact Hkeep].
    destruct (campaigns st !! N.to_nat i) as [ci|] eqn:Hi;
      [|intros _; exact Hkeep].
    destruct (completed ci); [intros _; exact Hkeep|].
    destruct (n <=? coin.balance a g); [|intros _; exact Hkeep].
    destruct (funds_at g !! admin_address); [|intros _; exact Hkeep].
    cbn zeta. destruct (donated ci + n <=? MAX_U64); [|intros _; exact Hkeep].
    unfold campaign_at. rewrite Hst. cbn [store_at set_store_at].
    rewrite lookup_insert_eq. cbn [campaigns].
    intros Hnone. rewrite list_lookup_insert_ne; [congruence|].
    intros Heq. rewrite Heq in Hi. congruence.
  - rewrite withdraw_eq.
    destruct (store_at g !! admin_address) as [st|] eqn:Hst;
      [|intros _; exact Hkeep].
    destruct (campaigns st !! N.to_nat i) as [ci|] eqn:Hi;
      [|intros _; exact Hkeep].
    destruct (negb (owner ci =? a)); [intros _; exact Hkeep|].
    destruct (negb (completed ci)); [intros _; exact Hkeep|].
    destruct (withdrawn ci); [intros _; exact Hkeep|].
    destruct (funds_at g !! admin_address) as [f|]; [|intros _; exact Hkeep].
    destruct (donated ci <=? funds f); [|intros _; exact Hkeep].
    unfold campaign_at. rewrite Hst. cbn [store_at].
    rewrite lookup_insert_eq. cbn [campaigns].
    intros Hnone. rewrite list_lookup_insert_ne; [congruence|].
    intros Heq. rewrite Heq in Hi. congruence.
  - rewrite admin_withdraw_eq.
    destruct (negb (a =? admin_address)); [intros _; exact Hkeep|].
    destruct (store_at g !! admin_address) as [st|] eqn:Hst;
      [|intros _; exact Hkeep].
    destruct (campaigns st !! N.to_nat i) as [ci|] eqn:Hi;
      [|intros _; exact Hkeep].
    destruct (withdrawn ci); [intros _; exact Hkeep|].
    destruct (funds_at g !! admin_address) as [f|]; [|intros _; exact Hkeep].
    destruct (donated ci <=? funds f); [|intros _; exact Hkeep].
    unfold campaign_at. rewrite Hst. cbn [store_at].
    rewrite lookup_insert_eq. cbn [campaigns].
    intros Hnone. rewrite list_lookup_insert_ne; [congruence|].
    intros Heq. rewrite Heq in Hi. congruence.
Qed.

(** ** The flag [withdrawn] over a run *)

Lemma withdrawn_at_step (c : Call) (g : Global) (i : N) :
  withdrawn_at g i = true -> withdrawn_at (step c g) i = true.
Proof.
  unfold withdrawn_at.
  destruct (campaign_at g i) as [ci|] eqn:Hi; [|done].
  intros Hw. destruct (campaign_step c g i ci Hi) as (ci' & -> & Hrest).
  by apply Hrest.
Qed.

Lemma trace_head (cs : list Call) (g : Global) :
  exists tl, trace cs g = g :: tl.
Proof. destruct cs; simpl; eauto. Qed.

Lemma rises_after_true (cs : list Call) (g : Global) (i : N) :
  withdrawn_at g i = true ->
  rises (map (fun s => withdrawn_at s i) (trace cs g)) = 0%nat.
Proof.
  revert g. induction cs as [|c cs IH]; intros g Hw; [done|].
  specialize (IH (step c g) (withdrawn_at_step c g i Hw)).
  cbn [trace map]. destruct (trace_head cs (step c g)) as (tl & Htl).
  rewrite Htl in *. cbn [map rises] in *. rewrite IH, Hw. done.
Qed.

Lemma rises_at_most_once (cs : list Call) (g : Global) (i : N) :
  (rises (map (fun s => withdrawn_at s i) (trace cs g)) <= 1)%nat.
Proof.
  revert g. induction cs as [|c cs IH]; intros g; [simpl; lia|].
  cbn [trace map].
  pose proof (rises_after_true cs (step c g) i) as Htrue.
  specialize (IH (step c g)).
  destruct (trace_head cs (step c g)) as (tl & Htl).
  rewrite Htl in *. cbn [map rises] in *.
  destruct (withdrawn_at (step c g) i).
  - rewrite Htrue by done. destruct (withdrawn_at g i); simpl; clear; lia.
  - rewrite andb_false_r. exact IH.
Qed.

(** C1 as stated does not hold: after the administrator has paid out the
    campaign of the scenario at 600 of 1000, it is withdrawn and not
    completed. *)
Lemma withdrawn_without_completed_counterexample :
  ~ (forall g, reachable g ->
       forall i c, campaign_at g i = Some c ->
         withdrawn c = true -> completed c = true).
Proof.
  intros H.
  specialize (H flood_forced flood_forced_reachable 0
                (mkCampaign alice flood_title flood_description 1000 600
                            false true)).
  discriminate H; [vm_compute|]; reflexivity.
Qed.

(** ** Donations to one campaign *)

(** A donation to an existing campaign is either accepted, on a campaign
    not yet completed, and then adds its whole amount to [donated] and
    sets [completed] when the goal is met; or rejected, and then changes
    nothing. *)
Lemma donate_campaign (d i n : N) (g : Global) (c : Campaign) :
  campaign_at g i = Some c ->
  (accepted (Donate d i n) g = true /\ completed c = false /\
   campaign_at (step (Donate d i n) g) i =
     Some (mkCampaign (owner c) (title c) (description c) (goal c)
             (donated c + n) (goal c <=? donated c + n) (withdrawn c))) \/
  (accepted (Donate d i n) g = false /\ step (Donate d i n) g = g).
Proof.
  unfold campaign_at at 1.
  destruct (store_at g !! admin_address) as [st|] eqn:Hst; [|done].
  intros Hc. unfold accepted, step, commit. cbn [entry].
  rewrite donate_eq, Hst, Hc.
  destruct (completed c) eqn:Hcomp; [by right|].
  destruct (n <=? coin.balance d g); [|by right].
  destruct (funds_at g !! admin_address) as [f|]; [|by right]. cbn zeta.
  destruct (donated c + n <=? MAX_U64); [|by right].
  left. split; [done|]. split; [done|].
  unfold campaign_at. cbn [store_at set_store_at].
  rewrite lookup_insert_eq. cbn [campaigns].
  apply list_lookup_insert_eq. by apply lookup_lt_Some in Hc.
Qed.

(** C4: for any sequence of donations made to one campaign, the final
    [donated] is the initial one plus the sum of the amounts of the
    accepted donations, in full (no capping at [goal]); [completed] is
    [true] at the end exactly when it was already or some accepted
    donation of the sequence left [donated >= goal]; and from a completed
    campaign on, every further donation is rejected and changes nothing,
    so [completed] stays [true].  As this holds of every sequence, it
    holds of every prefix: [completed] turns [true] at the first accepted
    donation that reaches the goal. *)
Theorem donations_accumulate (i : N) (ds : list (N * N)) (g : Global)
    (c : Campaign) :
  campaign_at g i = Some c ->
  exists c',
    campaign_at (run (donations i ds) g) i = Some c' /\
    donated c' = donated c + accepted_total i ds g /\
    completed c' = completed c || goal_crossed i ds g /\
    goal c' = goal c /\
    (completed c = true -> run (donations i ds) g = g).
Proof.
  revert g c. induction ds as [|[d n] ds IH]; intros g c Hc.
  - exists c. cbn. rewrite N.add_0_r, orb_false_r. by repeat split.
  - cbn [donations map run foldl accepted_total goal_crossed fst snd].
    destruct (donate_campaign d i n g c Hc)
      as [(Hacc & Hcomp & Hc1)|(Hrej & Hg)].
    + destruct (IH _ _ Hc1) as (c' & Hc' & Hdon & Hcompl & Hgoal & _).
      exists c'. split; [exact Hc'|].
      cbn [donated completed goal] in Hdon, Hcompl, Hgoal.
      unfold goal_met. rewrite Hc1, Hacc, Hcomp. cbn [goal donated andb orb].
      repeat split; [lia|done|done|congruence].
    + rewrite Hrej, Hg.
      destruct (IH _ _ Hc) as (c' & Hc' & Hdon & Hcompl & Hgoal & Hstay).
      exists c'. cbn [andb orb]. by repeat split.
Qed.

Lemma donations_accumulate_witness :
  exists c',
    campaign_at (run (donations 0 [(bob, 600); (carol, 500)]) flood_new) 0 =
      Some c' /\
    donated c' = 1100 /\ completed c' = true.
Proof.
  destruct (donations_accumulate 0 [(bob, 600); (carol, 500)] flood_new
              (mkCampaign alice flood_title flood_description 1000 0
                          false false))
    as (c' & Hc' & Hdon & Hcompl & _).
  - vm_compute. reflexivity.
  - exists c'. split; [exact Hc'|]. split.
    + rewrite Hdon. vm_compute. reflexivity.
    + rewrite Hcompl. vm_compute. reflexivity.
Defined.

(** ** What stays true of a paid-out campaign *)

Lemma evolves_withdrawn (g g' : Global) (i : N) :
  evolves g g' -> withdrawn_at g i = true -> withdrawn_at g' i = true.
Proof.
  induction 1 as [|c g' _ IH|b g' _ IH]; intros Hw.
  - exact Hw.
  - apply withdrawn_at_step. by apply IH.
  - by apply IH.
Qed.

Lemma evolves_covered (k : N) (g g' : Global) :
  evolves g g' -> covered k g -> covered k g'.
Proof.
  induction 1 as [|c g' _ IH|b g' _ IH]; intros Hk.
  - exact Hk.
  - destruct (IH Hk) as (st & f & Hst & Hf & Hle).
    by apply (covered_step k c g' st f).
  - by apply IH.
Qed.

(** Neither withdrawal path pays out a campaign already [withdrawn]. *)
Lemma withdrawn_blocks (g : Global) (i caller : N) :
  withdrawn_at g i = true ->
  (exists e, withdraw caller i g = (g, Aborted e)) /\
  (exists e, admin_withdraw caller i g = (g, Aborted e)).
Proof.
  unfold withdrawn_at, campaign_at.
  rewrite withdraw_eq, admin_withdraw_eq.
  destruct (store_at g !! admin_address) as [st|]; [|done].
  destruct (campaigns st !! N.to_nat i) as [c|]; [|done].
  intros ->. split.
  - destruct (negb (owner c =? caller)); [by eauto|].
    destruct (negb (completed c)); by eauto.
  - destruct (negb (caller =? admin_address)); by eauto.
Qed.

(** C9, as the code has it: [donate] does not look at [withdrawn].  On a
    campaign not completed and already withdrawn, in a reachable state, a
    donation of an amount the donor can pay, and that keeps [donated]
    within [u64], succeeds and adds the amount to [donated]; from then on
    the treasury holds that amount beyond everything owed to the
    campaigns not yet paid out, and every [withdraw] and [admin_withdraw]
    on the campaign aborts. *)
Theorem donate_after_forced_payout (g : Global) (i donor amount : N)
    (c : Campaign) :
  reachable g ->
  campaign_at g i = Some c ->
  completed c = false ->
  withdrawn c = true ->
  amount <= coin.balance donor g ->
  donated c + amount <= MAX_U64 ->
  exists g',
    donate donor i amount g = (g', Ok tt) /\
    campaign_at g' i =
      Some (mkCampaign (owner c) (title c) (description c) (goal c)
              (donated c + amount) (goal c <=? donated c + amount) true) /\
    forall g'', evolves g' g'' ->
      covered amount g'' /\
      forall caller,
        (exists e, withdraw caller i g'' = (g'', Aborted e)) /\
        (exists e, admin_withdraw caller i g'' = (g'', Aborted e)).
Proof.
  intros Hreach Hc Hcomp Hw Hbal Hfit.
  unfold campaign_at in Hc.
  destruct (store_at g !! admin_address) as [st|] eqn:Hst; [|done].
  destruct (reachable_solvent g Hreach st Hst) as (f & Hf & Hle).
  apply N.leb_le in Hbal, Hfit.
  eexists. split.
  { rewrite donate_eq, Hst, Hc, Hcomp, Hbal, Hf. cbn zeta.
    rewrite Hfit, Hw. reflexivity. }
  split.
  { unfold campaign_at. cbn [store_at set_store_at].
    rewrite lookup_insert_eq. cbn [campaigns].
    apply list_lookup_insert_eq. by apply lookup_lt_Some in Hc. }
  intros g'' Hev. split.
  - apply (evolves_covered amount _ _ Hev).
    eexists _, _.
    cbn [store_at funds_at set_store_at set_funds_at set_coin_store].
    rewrite !lookup_insert_eq. split; [done|]. split; [done|].
    cbn [campaigns funds].
    pose proof (escrowed_insert _ _ _
      (mkCampaign (owner c) (title c) (description c) (goal c)
         (donated c + amount) (goal c <=? donated c + amount) true) Hc) as He.
    unfold owed in He. cbn [withdrawn] in He. rewrite Hw in He. lia.
  - intros caller. apply withdrawn_blocks.
    apply (evolves_withdrawn _ _ _ Hev).
    unfold withdrawn_at, campaign_at. cbn [store_at set_store_at].
    rewrite lookup_insert_eq. cbn [campaigns].
    rewrite list_lookup_insert_eq by (by apply lookup_lt_Some in Hc). done.
Qed.

Lemma flood_forced_campaign :
  campaign_at flood_forced 0 =
  Some (mkCampaign alice flood_title flood_description 1000 600 false true).
Proof. vm_compute. reflexivity. Qed.

Lemma donate_after_forced_payout_witness :
  exists g',
    donate carol 0 500 flood_forced = (g', Ok tt) /\
    campaign_at g' 0 =
      Some (mkCampaign alice flood_title flood_description 1000 1100
                       true true).
Proof.
  destruct (donate_after_forced_payout flood_forced 0 carol 500 _
              flood_forced_reachable flood_forced_campaign eq_refl eq_refl)
    as (g' & Hg' & Hc' & _).
  - vm_compute. discriminate.
  - vm_compute. discriminate.
  - exists g'. split; [exact Hg'|]. rewrite Hc'. reflexivity.
Defined.

(** The donation that overflows. *)
Example edge_donation_aborts :
  snd (donate alice 0 2 edge_forced) = Aborted ARITHMETIC_ERROR.
Proof. vm_compute. reflexivity. Qed.

Lemma edge_forced_reachable : reachable edge_forced.
Proof.
  apply reachable_run; [|apply reach_genesis]. valid_calls.
Qed.

(** C9 as stated does not hold: the campaign at the edge of [u64] is
    withdrawn and not completed, its owner can pay 2, and the donation
    aborts on the overflow of [donated]. *)
Lemma donate_overflow_counterexample :
  ~ (forall (g : Global) (i donor amount : N) (c : Campaign),
       reachable g ->
       campaign_at g i = Some c ->
       completed c = false ->
       withdrawn c = true ->
       amount <= coin.balance donor g ->
       exists g', donate donor i amount g = (g', Ok tt)).
Proof.
  intros H.
  destruct (H edge_forced 0 alice 2
              (mkCampaign alice flood_title flood_description MAX_U64
                          (MAX_U64 - 1) false true)
              edge_forced_reachable) as (g' & Hg').
  - vm_compute. reflexivity.
  - reflexivity.
  - reflexivity.
  - vm_compute. discriminate.
  - apply (f_equal snd) in Hg'. vm_compute in Hg'. discriminate Hg'.
Qed.

(** * Further properties of the module *)

(** ** The counter stays within [u64] *)

Lemma counter_bounded_step (c : Call) (g : Global) :
  (forall st, store_at g !! admin_address = Some st ->
     next_id st <= MAX_U64) ->
  forall st', store_at (step c g) !! admin_address = Some st' ->
    next_id st' <= MAX_U64.
Proof.
  intros Hg st' Hst'.
  destruct (store_at g !! admin_address) as [st|] eqn:Hst.
  - specialize (Hg st eq_refl).
    destruct (step_registry c g st Hst)
      as (st2 & Hst2 & [[Hn _]|((a & t & d & gl & ->) & _)]).
    + rewrite Hst2 in Hst'. injection Hst' as ->. lia.
    + clear Hst2. revert Hst'. unfold step, commit. cbn [entry].
      rewrite create_campaign_eq, Hst. cbn zeta.
      destruct (next_id st + 1 <=? MAX_U64) eqn:Hfit.
      * cbn [store_at set_store_at]. rewrite lookup_insert_eq.
        intros [= <-]. cbn [next_id]. by apply N.leb_le.
      * rewrite Hst. by intros [= <-].
  - destruct (registry_created c g st' Hst Hst') as (_ & -> & _).
    cbn. unfold MAX_U64. lia.
Qed.

Lemma reachable_counter_bounded (g : Global) :
  reachable g ->
  forall st, store_at g !! admin_address = Some st -> next_id st <= MAX_U64.
Proof.
  induction 1 as [b|c g _ IH _|b g _ IH].
  - intros st H. cbn in H. by rewrite lookup_empty in H.
  - by apply counter_bounded_step.
  - exact IH.
Qed.

Lemma reachable_length_bounded (g : Global) (st : CampaignStore) :
  reachable g -> store_at g !! admin_address = Some st ->
  vector_length (campaigns st) <= MAX_U64.
Proof.
  intros Hr Hst. rewrite <- (reachable_counter_matches g Hr st Hst).
  by apply (reachable_counter_bounded g Hr).
Qed.

(** ** The view functions *)

(** X1: [get_campaign_count] never aborts and never writes; it returns 0
    before [initialize]; and [get_campaign] returns a campaign exactly
    for the indices below the count it returns. *)
Theorem get_campaign_count_bounds_lookup (g : Global) (index : N) :
  exists n,
    get_campaign_count g = (g, Ok n) /\
    (store_at g !! admin_address = None -> n = 0) /\
    ((exists t, get_campaign index g = (g, Ok t)) <-> index < n).
Proof.
  unfold_entry.
  destruct (store_at g !! admin_address) as [st|] eqn:Hst.
  - rewrite bool_decide_true by eauto. cbn [negb]. rewrite Hst.
    eexists. split; [reflexivity|]. split; [done|].
    destruct (campaigns st !! N.to_nat index) as [c|] eqn:Hc.
    + rewrite (index_in_range _ _ _ Hc). split; [|by eauto].
      intros _. by apply N.ltb_lt, (index_in_range _ _ c).
    + rewrite (index_not_found _ _ Hc). split; [by intros [? [=]]|].
      intros Hlt. apply N.ltb_lt in Hlt.
      by rewrite (index_not_found _ _ Hc) in Hlt.
  - rewrite bool_decide_false by (intros [? ?]; congruence).
    exists 0. split; [reflexivity|]. split; [done|].
    split; [by intros [? [=]]|lia].
Qed.

(** X2: [get_all_campaigns] never aborts and never writes; it returns
    the empty vector before [initialize]; its length is the count
    returned by [get_campaign_count]; and its element of index [i] has
    the fields [get_campaign] returns for [i]. *)
Theorem get_all_campaigns_agrees (g : Global) :
  exists l,
    get_all_campaigns g = (g, Ok l) /\
    (store_at g !! admin_address = None -> l = []) /\
    get_campaign_count g = (g, Ok (vector_length l)) /\
    (forall i c, l !! N.to_nat i = Some c ->
       get_campaign i g = (g, Ok (fields c))).
Proof.
  unfold get_all_campaigns. unfold_entry.
  destruct (store_at g !! admin_address) as [st|] eqn:Hst.
  - rewrite bool_decide_true by eauto. cbn [negb]. rewrite Hst.
    exists (campaigns st). split; [done|]. split; [done|]. split; [done|].
    intros i c Hc. by rewrite (index_in_range _ _ _ Hc), Hc.
  - rewrite bool_decide_false by (intros [? ?]; congruence).
    exists []. split; [done|]. split; [done|]. split; [done|].
    intros i c Hc. by rewrite lookup_nil in Hc.
Qed.

Lemma get_all_campaigns_agrees_witness :
  get_all_campaigns flood_funded =
    (flood_funded,
     Ok [mkCampaign alice flood_title flood_description 1000 1100 true false])
  /\ get_campaign 0 flood_funded =
    (flood_funded,
     Ok (alice, flood_title, flood_description, 1000, 1100, true, false)).
Proof.
  destruct (get_all_campaigns_agrees flood_funded)
    as (l & Hl & _ & _ & Hget).
  assert (snd (get_all_campaigns flood_funded) =
            Ok [mkCampaign alice flood_title flood_description 1000 1100
                           true false]) as Hall
    by (vm_compute; reflexivity).
  rewrite Hl in Hall. cbn [snd] in Hall. injection Hall as ->.
  split; [exact Hl|].
  apply (Hget 0 (mkCampaign alice flood_title flood_description 1000 1100
                            true false)).
  reflexivity.
Defined.

(** ** The scan by owner *)

Lemma owner_loop_from (v : list Campaign) (o : N) (rest : list Campaign) :
  forall (fuel : nat) (i : N) (found : list N),
    drop (N.to_nat i) v = rest ->
    (length rest <= fuel)%nat ->
    vector_length v <= MAX_U64 ->
    owner_loop fuel v o i found = Some (Ok (found ++ owned_from rest o i)).
Proof.
  induction rest as [|c rest IH]; intros fuel i found Hdrop Hfuel Hmax.
  - assert ((i <? vector_length v) = false) as Hge.
    { apply N.ltb_ge. unfold vector_length.
      apply drop_nil_inv in Hdrop. lia. }
    destruct fuel; cbn [owner_loop owned_from]; rewrite Hge;
      by rewrite app_nil_r.
  - assert (v !! N.to_nat i = Some c) as Hc.
    { pose proof (lookup_drop v (N.to_nat i) 0) as H.
      rewrite Hdrop, Nat.add_0_r in H. done. }
    assert (drop (N.to_nat (i + 1)) v = rest) as Hdrop'.
    { replace (N.to_nat (i + 1)) with (N.to_nat i + 1)%nat by lia.
      rewrite <- drop_drop, Hdrop. done. }
    pose proof (index_in_range _ _ _ Hc) as Hlt.
    destruct fuel as [|fuel]; [cbn in Hfuel; lia|].
    cbn [owner_loop owned_from]. rewrite Hlt, Hc.
    assert ((i + 1 <=? MAX_U64) = true) as ->.
    { apply N.leb_le. apply N.ltb_lt in Hlt. lia. }
    rewrite (IH fuel (i + 1)); [|done|cbn in Hfuel; lia|done].
    destruct (owner c =? o); [|done]. by rewrite <- app_assoc.
Qed.

Lemma owned_from_elem (v : list Campaign) (o : N) (i j : N) :
  j ∈ owned_from v o i <->
  exists c, i <= j /\ v !! N.to_nat (j - i) = Some c /\ owner c = o.
Proof.
  revert i. induction v as [|c v IH]; intros i; cbn [owned_from].
  - split; [by intros ?%elem_of_nil|]. intros (c & _ & Hc & _).
    by rewrite lookup_nil in Hc.
  - rewrite elem_of_app, IH. split.
    + intros [Hhere|(c' & Hle & Hc' & Ho)].
      * destruct (owner c =? o) eqn:Ho; [|by apply elem_of_nil in Hhere].
        apply list_elem_of_singleton in Hhere as ->.
        exists c. split; [lia|]. rewrite N.sub_diag. split; [done|].
        by apply N.eqb_eq.
      * exists c'. split; [lia|]. split; [|done].
        replace (N.to_nat (j - i)) with (S (N.to_nat (j - (i + 1)))) by lia.
        done.
    + intros (c' & Hle & Hc' & Ho).
      destruct (decide (j = i)) as [->|Hne].
      * left. rewrite N.sub_diag in Hc'. cbn in Hc'. injection Hc' as ->.
        apply N.eqb_eq in Ho. rewrite Ho. by apply list_elem_of_singleton.
      * right. exists c'. split; [lia|]. split; [|done].
        replace (N.to_nat (j - i)) with (S (N.to_nat (j - (i + 1)))) in Hc'
          by lia.
        done.
Qed.

Lemma owned_from_sorted (v : list Campaign) (o : N) (i : N) :
  StronglySorted N.lt (owned_from v o i).
Proof.
  revert i. induction v as [|c v IH]; intros i; cbn [owned_from].
  - constructor.
  - destruct (owner c =? o); [|apply IH]. cbn. constructor; [apply IH|].
    apply Forall_forall. intros j Hj. apply owned_from_elem in Hj.
    destruct Hj as (_ & Hle & _). lia.
Qed.

(** X3: in every reachable state, with fuel for as many iterations as
    there are campaigns, [get_campaigns_by_owner] returns (it neither
    aborts nor runs out of fuel) and never writes; the indices it returns
    are in strictly ascending order and are exactly the indices of the
    campaigns whose owner is the given address. *)
Theorem get_campaigns_by_owner_correct (g : Global) (fuel : nat) (o : N) :
  reachable g ->
  (forall st, store_at g !! admin_address = Some st ->
     (length (campaigns st) <= fuel)%nat) ->
  exists r,
    get_campaigns_by_owner fuel o g = Some (g, Ok r) /\
    StronglySorted N.lt r /\
    (forall i, i ∈ r <->
       exists c, campaign_at g i = Some c /\ owner c = o).
Proof.
  intros Hreach Hfuel. unfold get_campaigns_by_owner, campaign_at.
  destruct (store_at g !! admin_address) as [st|] eqn:Hst.
  - rewrite (owner_loop_from (campaigns st) o (campaigns st) fuel 0 []);
      [|done|by apply Hfuel|by apply (reachable_length_bounded g)].
    eexists. split; [reflexivity|]. cbn [app].
    split; [apply owned_from_sorted|].
    intros i. rewrite owned_from_elem, N.sub_0_r. split.
    + intros (c & _ & Hc & Ho). eauto.
    + intros (c & Hc & Ho). exists c. split; [lia|done].
  - exists []. split; [done|]. split; [constructor|].
    intros i. split; [by intros ?%elem_of_nil|by intros (c & [=] & _)].
Qed.

Lemma get_campaigns_by_owner_correct_witness :
  exists r,
    get_campaigns_by_owner 1 alice flood_funded = Some (flood_funded, Ok r) /\
    (0 ∈ r <->
     exists c, campaign_at flood_funded 0 = Some c /\ owner c = alice).
Proof.
  destruct (get_campaigns_by_owner_correct flood_funded 1 alice
              flood_funded_reachable) as (r & Hr & _ & Hin).
  - intros st Hst. rewrite flood_funded_store in Hst.
    injection Hst as <-. cbn. lia.
  - exists r. split; [exact Hr|apply Hin].
Defined.

(** ** What a transaction does to a campaign *)

(** A transaction leaves a campaign as it is, or is an accepted donation
    to it, or is its payout. *)
Lemma campaign_step_shape (c : Call) (g : Global) (j : N) (cj : Campaign) :
  campaign_at g j = Some cj ->
  campaign_at (step c g) j = Some cj \/
  (exists d n,
     c = Donate d j n /\ completed cj = false /\
     campaign_at (step c g) j =
       Some (mkCampaign (owner cj) (title cj) (description cj) (goal cj)
               (donated cj + n) (goal cj <=? donated cj + n)
               (withdrawn cj))) \/
  (((exists a, c = Withdraw a j /\ owner cj = a /\ completed cj = true) \/
    c = AdminWithdraw admin_address j) /\
   withdrawn cj = false /\
   campaign_at (step c g) j = Some (set_withdrawn true cj)).
Proof.
  intros Hcj. pose proof Hcj as Hj. unfold campaign_at in Hj.
  destruct (store_at g !! admin_address) as [st|] eqn:Hst; [|done].
  unfold step, commit.
  destruct c as [a|a t d gl|a i n|a i|a i]; cbn [entry].
  - left. rewrite initialize_eq. unfold campaign_at. cbn [store_at].
    destruct (store_at g !! a) eqn:Ha; [by rewrite Hst|].
    destruct (decide (a = admin_address)) as [->|Hne]; [congruence|].
    by rewrite lookup_insert_ne, Hst.
  - left. rewrite create_campaign_eq, Hst. cbn zeta.
    destruct (next_id st + 1 <=? MAX_U64); [|done].
    unfold campaign_at. cbn [store_at set_store_at].
    rewrite lookup_insert_eq. cbn [campaigns].
    by rewrite lookup_app_l by (by apply lookup_lt_Some in Hj).
  - rewrite donate_eq, Hst.
    destruct (campaigns st !! N.to_nat i) as [ci|] eqn:Hi; [|by left].
    destruct (completed ci) eqn:Hcomp; [by left|].
    destruct (n <=? coin.balance a g); [|by left].
    destruct (funds_at g !! admin_address); [|by left]. cbn zeta.
    destruct (donated ci + n <=? MAX_U64); [|by left].
    unfold campaign_at. cbn [store_at set_store_at].
    rewrite lookup_insert_eq. cbn [campaigns].
    match goal with |- context [<[_ := ?x]> (campaigns st)] =>
      destruct (lookup_updated _ _ _ _ x _ Hi Hj) as [(Hij & -> & ->)|(_ & ->)]
    end; [|by left].
    apply N2Nat.inj in Hij as ->. right. left. by eauto.
  - rewrite withdraw_eq, Hst.
    destruct (campaigns st !! N.to_nat i) as [ci|] eqn:Hi; [|by left].
    destruct (owner ci =? a) eqn:Ho; [|by left]. cbn [negb].
    destruct (completed ci) eqn:Hcomp; [|by left]. cbn [negb].
    destruct (withdrawn ci) eqn:Hw; [by left|].
    destruct (funds_at g !! admin_address) as [f|]; [|by left].
    destruct (donated ci <=? funds f); [|by left].
    unfold campaign_at. cbn [store_at].
    rewrite lookup_insert_eq. cbn [campaigns].
    destruct (lookup_updated _ _ _ _ (set_withdrawn true ci) _ Hi Hj)
      as [(Hij & -> & ->)|(_ & ->)]; [|by left].
    apply N2Nat.inj in Hij as ->. apply N.eqb_eq in Ho.
    right. right. split; [left; by eauto|done].
  - rewrite admin_withdraw_eq, Hst.
    destruct (a =? admin_address) eqn:Ha; [|by left]. cbn [negb].
    destruct (campaigns st !! N.to_nat i) as [ci|] eqn:Hi; [|by left].
    destruct (withdrawn ci) eqn:Hw; [by left|].
    destruct (funds_at g !! admin_address) as [f|]; [|by left].
    destruct (donated ci <=? funds f); [|by left].
    unfold campaign_at. cbn [store_at].
    rewrite lookup_insert_eq. cbn [campaigns].
    destruct (lookup_updated _ _ _ _ (set_withdrawn true ci) _ Hi Hj)
      as [(Hij & -> & ->)|(_ & ->)]; [|by left].
    apply N2Nat.inj in Hij as ->. apply N.eqb_eq in Ha as ->.
    right. right. split; [by right|done].
Qed.

(** ** The flag [withdrawn] and completion *)

Lemma rejected_step (c : Call) (g : Global) :
  accepted c g = false -> step c g = g.
Proof.
  unfold accepted, step, commit. by destruct (entry c g) as [g' [u|e]].
Qed.

Lemma genesis_no_campaign (balances : gmap N N) (i : N) :
  campaign_at (genesis balances) i = None.
Proof. unfold campaign_at. cbn. by rewrite lookup_empty. Qed.

(** One transaction keeps "withdrawn only if completed" on a campaign
    unless it is a forced payout of that campaign. *)
Lemma withdrawn_completed_step (c : Call) (g : Global) (i : N) :
  (forall c0, campaign_at g i = Some c0 ->
     withdrawn c0 = true -> completed c0 = true) ->
  forced_payout i c g = false ->
  forall c1, campaign_at (step c g) i = Some c1 ->
    withdrawn c1 = true -> completed c1 = true.
Proof.
  intros Hg Hnot c1 Hc1 Hw1.
  destruct (campaign_at g i) as [ci|] eqn:Hi.
  - specialize (Hg ci eq_refl).
    destruct (campaign_step_shape c g i ci Hi)
      as [Hsame|[(d & n & _ & Hcomp & Hnew)|(Hwho & Hw & Hnew)]].
    + rewrite Hsame in Hc1. injection Hc1 as <-. by apply Hg.
    + rewrite Hnew in Hc1. injection Hc1 as <-. cbn in Hw1.
      specialize (Hg Hw1). congruence.
    + rewrite Hnew in Hc1. injection Hc1 as <-. cbn [completed set_withdrawn].
      destruct Hwho as [(a & _ & _ & Hdone)| ->]; [done|].
      destruct (completed ci) eqn:Hcomp; [done|]. exfalso.
      unfold forced_payout in Hnot. rewrite Hi, Hcomp, N.eqb_refl in Hnot.
      cbn [andb negb] in Hnot. rewrite andb_true_r in Hnot.
      rewrite (rejected_step _ _ Hnot), Hi in Hnew.
      injection Hnew as Heq. rewrite Heq in Hw. cbn in Hw. congruence.
  - destruct (campaign_new c g i c1 Hi Hc1) as (_ & _ & Hw). congruence.
Qed.

(** C1, as the code has it: along any run, the flag [withdrawn] of a
    campaign goes from [false] to [true] at most once (it is never
    reset); and after every operation a withdrawn campaign is a completed
    one, with one exception only: a campaign that an [admin_withdraw]
    which returned has paid out while it was not completed.  An
    [admin_withdraw] that aborts, or that pays out another campaign or a
    completed one, takes nothing away. *)
Theorem withdrawn_lifecycle (cs : list Call) (g : Global) (i : N) :
  (rises (map (fun s => withdrawn_at s i) (trace cs g)) <= 1)%nat /\
  ((forall c0, campaign_at g i = Some c0 ->
      withdrawn c0 = true -> completed c0 = true) ->
   forall c, campaign_at (run cs g) i = Some c ->
     withdrawn c = true ->
     completed c = true \/ forced_along i cs g = true).
Proof.
  split; [apply rises_at_most_once|].
  revert g. induction cs as [|call cs IH]; intros g Hg c Hc Hw.
  - left. by apply (Hg c).
  - cbn [run foldl] in Hc. cbn [forced_along].
    destruct (forced_payout i call g) eqn:Hforced; [by right|].
    cbn [orb]. apply (IH (step call g)); [|done..].
    by apply withdrawn_completed_step.
Qed.

Lemma withdrawn_lifecycle_witness :
  true = true \/
  forced_along 0 (flood_calls ++ [AdminWithdraw bob 0; Withdraw alice 0])
    (genesis flood_balances) = true.
Proof.
  destruct (withdrawn_lifecycle
              (flood_calls ++ [AdminWithdraw bob 0; Withdraw alice 0])
              (genesis flood_balances) 0) as (_ & H).
  apply (H (fun c0 Hc0 _ =>
              False_ind _ (None_ne_Some c0
                (eq_trans (eq_sym (genesis_no_campaign flood_balances 0))
                          Hc0)))
           (mkCampaign alice flood_title flood_description 1000 1100
                       true true)).
  - vm_compute. reflexivity.
  - reflexivity.
Defined.

(** Only a payout that the administrator forces on the campaign itself
    counts: not a rejected [admin_withdraw], nor one on another index. *)
Example forced_along_scenarios :
  forced_along 0
    (flood_calls ++
       [AdminWithdraw bob 0; AdminWithdraw admin_address 1; Withdraw alice 0])
    (genesis flood_balances) = false /\
  forced_along 0
    (flood_created ++ [Donate bob 0 600; AdminWithdraw admin_address 0])
    (genesis flood_balances) = true.
Proof. split; vm_compute; reflexivity. Qed.

(** X4: a call changes at most the campaign it names: [donate],
    [withdraw] and [admin_withdraw] on index [i] leave every campaign of
    another index as it was, and [initialize] and [create_campaign] leave
    every existing campaign as it was. *)
Theorem call_changes_only_its_campaign (c : Call) (g : Global) (j : N)
    (cj : Campaign) :
  campaign_at g j = Some cj ->
  target c <> Some j ->
  campaign_at (step c g) j = Some cj.
Proof.
  intros Hcj Ht.
  destruct (campaign_step_shape c g j cj Hcj)
    as [Hsame|[(d & n & -> & _)|([(a & -> & _)| ->] & _)]];
    [done|by destruct Ht..].
Qed.

Lemma call_changes_only_its_campaign_witness :
  campaign_at (step (Donate bob 1 10) flood_partial) 0 =
  Some (mkCampaign alice flood_title flood_description 1000 600 false false).
Proof.
  apply (call_changes_only_its_campaign (Donate bob 1 10) flood_partial 0).
  - vm_compute. reflexivity.
  - cbn. discriminate.
Defined.

Lemma completed_reflects_goal_step (c : Call) (g : Global) :
  completed_reflects_goal g -> completed_reflects_goal (step c g).
Proof.
  intros Hg i ci' Hi'.
  destruct (campaign_at g i) as [ci|] eqn:Hi.
  - specialize (Hg i ci Hi).
    destruct (campaign_step_shape c g i ci Hi)
      as [Hsame|[(d & n & _ & Hcomp & Hnew)|(_ & _ & Hnew)]].
    + rewrite Hsame in Hi'. by injection Hi' as <-.
    + rewrite Hnew in Hi'. injection Hi' as <-. cbn.
      split; [by intros ?%N.leb_le|]. intros Hlt%N.leb_gt. by right.
    + rewrite Hnew in Hi'. by injection Hi' as <-.
  - destruct (campaign_new c g i ci' Hi Hi') as (Hd & Hc & _).
    rewrite Hc, Hd. split; [done|]. by left.
Qed.

(** X5: in every reachable state [completed] tells whether the goal has
    been reached: a completed campaign has [donated >= goal], and a
    campaign not completed has received nothing yet or less than its
    goal. *)
Theorem reachable_completed_reflects_goal (g : Global) (i : N)
    (c : Campaign) :
  reachable g ->
  campaign_at g i = Some c ->
  (completed c = true -> goal c <= donated c) /\
  (completed c = false -> donated c = 0 \/ donated c < goal c).
Proof.
  intros Hreach. revert i c.
  change (completed_reflects_goal g).
  induction Hreach as [b|c g _ IH _|b g _ IH].
  - intros i c H. unfold campaign_at in H. cbn in H.
    by rewrite lookup_empty in H.
  - by apply completed_reflects_goal_step.
  - exact IH.
Qed.

Lemma reachable_completed_reflects_goal_witness :
  (true = true -> 1000 <= 1100) /\ (true = false -> 1100 = 0 \/ 1100 < 1000).
Proof.
  apply (reachable_completed_reflects_goal flood_funded 0
           (mkCampaign alice flood_title flood_description 1000 1100
                       true false) flood_funded_reachable).
  vm_compute. reflexivity.
Defined.

(** X6: the registry is append-only and an index names the same campaign
    for ever: whatever follows a state, a campaign stays at its index
    with the same owner, title, description and goal; [donated] never
    goes down, and [completed] and [withdrawn] are never reset. *)
Theorem campaign_identity_stable (g g' : Global) (i : N) (c : Campaign) :
  evolves g g' ->
  campaign_at g i = Some c ->
  exists c',
    campaign_at g' i = Some c' /\
    owner c' = owner c /\ title c' = title c /\
    description c' = description c /\ goal c' = goal c /\
    donated c <= donated c' /\
    (completed c = true -> completed c' = true) /\
    (withdrawn c = true -> withdrawn c' = true).
Proof.
  intros Hev Hc.
  induction Hev as [|call g' _ IH|b g' _ IH].
  - exists c. repeat split; auto; lia.
  - destruct IH as (c1 & Hc1 & Ho & Ht & Hd & Hg & Hdon & Hcomp & Hw).
    destruct (campaign_step_shape call g' i c1 Hc1)
      as [Hsame|[(d & n & _ & _ & Hnew)|(_ & _ & Hnew)]].
    + exists c1. by repeat split.
    + eexists. split; [exact Hnew|]. cbn.
      repeat split; auto; try lia.
      intros Hcc. specialize (Hcomp Hcc).
      destruct (campaign_step call g' i c1 Hc1)
        as (c2 & Hc2 & _ & _ & _ & Hkeep & _).
      rewrite Hnew in Hc2. injection Hc2 as <-. by apply Hkeep.
    + eexists. split; [exact Hnew|]. cbn. by repeat split.
  - exact IH.
Qed.

Lemma campaign_identity_stable_witness :
  exists c',
    campaign_at flood_paid 0 = Some c' /\ owner c' = alice /\
    title c' = flood_title /\ description c' = flood_description /\
    goal c' = 1000 /\ 0 <= donated c'.
Proof.
  destruct (campaign_identity_stable flood_new flood_paid 0
              (mkCampaign alice flood_title flood_description 1000 0
                          false false))
    as (c' & Hc' & Ho & Ht & Hd & Hg & Hdon & _).
  - apply (evolves_step _ (Withdraw alice 0)).
    apply (evolves_step _ (Donate carol 0 500)).
    apply (evolves_step _ (Donate bob 0 600)).
    apply evolves_refl.
  - vm_compute. reflexivity.
  - exists c'. by repeat split.
Defined.

(** ** The registry and the treasury *)

Lemma funds_with_store_step (c : Call) (g : Global) :
  (is_Some (funds_at g !! admin_address) ->
   is_Some (store_at g !! admin_address)) ->
  is_Some (funds_at (step c g) !! admin_address) ->
  is_Some (store_at (step c g) !! admin_address).
Proof.
  intros Hg.
  destruct (store_at g !! admin_address) as [st|] eqn:Hst.
  - intros _. destruct (step_registry c g st Hst) as (st' & -> & _). eauto.
  - assert (funds_at g !! admin_address = None) as Hf.
    { destruct (funds_at g !! admin_address) eqn:Hf; [|done].
      destruct Hg as [? [=]]. eauto. }
    unfold step, commit.
    destruct c as [a|a t d gl|a i n|a i|a i]; cbn [entry].
    + rewrite initialize_eq. cbn [store_at funds_at].
      destruct (decide (a = admin_address)) as [->|Hne].
      * rewrite Hst, lookup_insert_eq. eauto.
      * destruct (funds_at g !! a);
          rewrite ?lookup_insert_ne, Hf by done; by intros [? [=]].
    + rewrite create_campaign_eq, Hst, Hf. by intros [? [=]].
    + rewrite donate_eq, Hst, Hf. by intros [? [=]].
    + rewrite withdraw_eq, Hst, Hf. by intros [? [=]].
    + rewrite admin_withdraw_eq, Hst.
      destruct (negb (a =? admin_address)); rewrite Hf; by intros [? [=]].
Qed.

Lemma reachable_funds_with_store (g : Global) :
  reachable g ->
  is_Some (funds_at g !! admin_address) ->
  is_Some (store_at g !! admin_address).
Proof.
  induction 1 as [b|c g _ IH _|b g _ IH].
  - cbn. rewrite lookup_empty. by intros [? [=]].
  - by apply funds_with_store_step.
  - exact IH.
Qed.

(** X7: in every reachable state the registry and the treasury exist
    together, and the treasury holds at least the sum of [donated] over
    the campaigns not yet withdrawn; so it holds at least what any one
    of them has received. *)
Theorem treasury_covers_unpaid (g : Global) :
  reachable g ->
  (is_Some (store_at g !! admin_address) <->
   is_Some (funds_at g !! admin_address)) /\
  (forall st, store_at g !! admin_address = Some st ->
   exists f,
     funds_at g !! admin_address = Some f /\
     escrowed (campaigns st) <= funds f /\
     (forall i c, campaigns st !! i = Some c -> withdrawn c = false ->
        donated c <= funds f)).
Proof.
  intros Hreach. split.
  - split; [|by apply reachable_funds_with_store].
    intros [st Hst].
    destruct (reachable_solvent g Hreach st Hst) as (f & -> & _). eauto.
  - intros st Hst.
    destruct (reachable_solvent g Hreach st Hst) as (f & Hf & Hle).
    exists f. split; [done|]. split; [done|].
    intros i c Hc Hw. pose proof (escrowed_covers _ _ _ Hc) as Hcov.
    unfold owed in Hcov. rewrite Hw in Hcov. lia.
Qed.

Lemma treasury_covers_unpaid_witness :
  exists f,
    funds_at flood_funded !! admin_address = Some f /\ 1100 <= funds f.
Proof.
  destruct (treasury_covers_unpaid flood_funded flood_funded_reachable)
    as (_ & H).
  destruct (H _ flood_funded_store) as (f & Hf & Hle & _).
  exists f. split; [exact Hf|]. exact Hle.
Defined.

(** X8: while [@admin_address] has not called [initialize],
    [create_campaign], [donate] and [withdraw] abort on the missing
    registry and [admin_withdraw] aborts too, all without writing; and an
    [initialize] signed by any other address does not create the
    registry the module uses. *)
Theorem uninitialized_calls_abort (g : Global) :
  store_at g !! admin_address = None ->
  (forall a t d gl,
     create_campaign a t d gl g = (g, Aborted MISSING_DATA)) /\
  (forall a i n, donate a i n g = (g, Aborted MISSING_DATA)) /\
  (forall a i, withdraw a i g = (g, Aborted MISSING_DATA)) /\
  (forall a i,
     admin_withdraw a i g =
       (g, Aborted (if a =? admin_address then MISSING_DATA
                    else Abort E_NOT_OWNER))) /\
  (forall a, a <> admin_address ->
     store_at (step (Initialize a) g) !! admin_address = None).
Proof.
  intros Hst. repeat split.
  - intros a t d gl. by rewrite create_campaign_eq, Hst.
  - intros a i n. by rewrite donate_eq, Hst.
  - intros a i. by rewrite withdraw_eq, Hst.
  - intros a i. rewrite admin_withdraw_eq, Hst.
    by destruct (a =? admin_address).
  - intros a Hne. unfold step, commit. cbn [entry].
    rewrite initialize_eq. cbn [store_at].
    destruct (store_at g !! a); [done|]. by rewrite lookup_insert_ne.
Qed.

Lemma uninitialized_calls_abort_witness :
  donate bob 0 600 (step (Initialize alice) (genesis flood_balances)) =
  (step (Initialize alice) (genesis flood_balances), Aborted MISSING_DATA).
Proof.
  apply (uninitialized_calls_abort
           (step (Initialize alice) (genesis flood_balances))).
  vm_compute. reflexivity.
Defined.

(** ** Creating a campaign *)

Lemma get_campaign_at (g : Global) (i : N) (c : Campaign) :
  campaign_at g i = Some c -> get_campaign i g = (g, Ok (fields c)).
Proof.
  unfold campaign_at. unfold_entry.
  destruct (store_at g !! admin_address) as [st|]; [|done].
  intros Hc. by rewrite (index_in_range _ _ _ Hc), Hc.
Qed.

Lemma get_campaign_count_at (g : Global) (st : CampaignStore) :
  store_at g !! admin_address = Some st ->
  get_campaign_count g = (g, Ok (vector_length (campaigns st))).
Proof.
  intros Hst. unfold_entry. rewrite bool_decide_true by eauto.
  cbn [negb]. by rewrite Hst.
Qed.

(** X9: [create_campaign] checks nothing about its arguments: with the
    registry present and its counter below the largest [u64], it succeeds
    for any creator, title, description and goal.  The new campaign gets
    the next index, the count before the call: [get_campaign] there
    returns the creator, the title, the description and the goal given,
    with nothing donated and both flags [false]; the count goes up by
    one; every earlier campaign, the treasury and the balances are as
    before. *)
Theorem create_campaign_appends (g : Global) (st : CampaignStore)
    (creator : N) (t d : list Byte.byte) (gl : N) :
  store_at g !! admin_address = Some st ->
  next_id st < MAX_U64 ->
  exists g',
    create_campaign creator t d gl g = (g', Ok tt) /\
    get_campaign (vector_length (campaigns st)) g' =
      (g', Ok (creator, t, d, gl, 0, false, false)) /\
    get_campaign_count g' = (g', Ok (vector_length (campaigns st) + 1)) /\
    (forall i c, campaign_at g i = Some c -> campaign_at g' i = Some c) /\
    funds_at g' = funds_at g /\ coin_store g' = coin_store g.
Proof.
  intros Hst Hlt. rewrite create_campaign_eq, Hst. cbn zeta.
  assert ((next_id st + 1 <=? MAX_U64) = true) as ->
    by (apply N.leb_le; lia).
  eexists. split; [reflexivity|].
  split; [|split; [|split; [|done]]].
  - apply (get_campaign_at _ _ (mkCampaign creator t d gl 0 false false)).
    unfold campaign_at.
    cbn [store_at set_store_at]. rewrite lookup_insert_eq.
    cbn [campaigns]. unfold vector_length. rewrite Nat2N.id.
    rewrite lookup_app_r by lia. by rewrite Nat.sub_diag.
  - erewrite get_campaign_count_at;
      [|cbn [store_at set_store_at]; apply lookup_insert_eq].
    cbn [campaigns]. unfold vector_length. rewrite length_app. cbn.
    do 2 f_equal. lia.
  - intros i c. unfold campaign_at. cbn [store_at set_store_at].
    rewrite Hst, lookup_insert_eq. cbn [campaigns]. intros Hc.
    by rewrite lookup_app_l by (by apply lookup_lt_Some in Hc).
Qed.

Lemma create_campaign_appends_witness :
  exists g',
    create_campaign carol flood_title [] 0 flood_funded = (g', Ok tt) /\
    get_campaign 1 g' = (g', Ok (carol, flood_title, [], 0, 0, false, false)).
Proof.
  destruct (create_campaign_appends flood_funded _ carol flood_title [] 0
              flood_funded_store) as (g' & Hg' & Hget & _).
  - vm_compute. reflexivity.
  - exists g'. split; [exact Hg'|exact Hget].
Defined.

(** ** Donating *)

(** X10: in a reachable state, a donation to an existing campaign is
    accepted exactly when the campaign is not completed, the donor's
    balance covers the amount, and [donated] plus the amount fits in
    [u64]; the flag [withdrawn] plays no part. *)
Theorem donate_accepted_iff (g : Global) (i donor amount : N)
    (c : Campaign) :
  reachable g ->
  campaign_at g i = Some c ->
  (exists g', donate donor i amount g = (g', Ok tt)) <->
  completed c = false /\ amount <= coin.balance donor g /\
  donated c + amount <= MAX_U64.
Proof.
  intros Hreach Hc. unfold campaign_at in Hc.
  destruct (store_at g !! admin_address) as [st|] eqn:Hst; [|done].
  destruct (reachable_solvent g Hreach st Hst) as (f & Hf & _).
  rewrite donate_eq, Hst, Hc, Hf. cbn zeta.
  destruct (completed c).
  { split; [by intros [? [=]]|by intros [[=] _]]. }
  destruct (amount <=? coin.balance donor g) eqn:Hbal.
  2:{ apply N.leb_gt in Hbal. split; [by intros [? [=]]|].
      intros (_ & Hle & _). lia. }
  apply N.leb_le in Hbal.
  destruct (donated c + amount <=? MAX_U64) eqn:Hfit.
  - apply N.leb_le in Hfit. split; [done|by eauto].
  - apply N.leb_gt in Hfit. split; [by intros [? [=]]|].
    intros (_ & _ & Hle). lia.
Qed.

Lemma donate_accepted_iff_witness :
  (exists g', donate carol 0 500 flood_forced = (g', Ok tt)) <->
  false = false /\ 500 <= coin.balance carol flood_forced /\
  600 + 500 <= MAX_U64.
Proof.
  apply (donate_accepted_iff flood_forced 0 carol 500
           (mkCampaign alice flood_title flood_description 1000 600
                       false true) flood_forced_reachable).
  vm_compute. reflexivity.
Defined.

(** X11: an accepted donation moves exactly its amount from the donor's
    balance into the treasury: the donor held at least the amount and
    holds that much less, the treasury holds that much more, and every
    other balance, the counter and the number of campaigns are as
    before. *)
Theorem donate_moves_amount (g g' : Global) (i donor amount : N) :
  donate donor i amount g = (g', Ok tt) ->
  exists st st' f,
    store_at g !! admin_address = Some st /\
    store_at g' !! admin_address = Some st' /\
    next_id st' = next_id st /\
    length (campaigns st') = length (campaigns st) /\
    funds_at g !! admin_address = Some f /\
    funds_at g' !! admin_address = Some (mkCampaignFunds (funds f + amount)) /\
    amount <= coin.balance donor g /\
    coin.balance donor g' = coin.balance donor g - amount /\
    (forall a, a <> donor -> coin.balance a g' = coin.balance a g).
Proof.
  rewrite donate_eq.
  destruct (store_at g !! admin_address) as [st|] eqn:Hst; [|done].
  destruct (campaigns st !! N.to_nat i) as [c|] eqn:Hc; [|done].
  destruct (completed c); [done|].
  destruct (amount <=? coin.balance donor g) eqn:Hbal; [|done].
  destruct (funds_at g !! admin_address) as [f|] eqn:Hf; [|done].
  cbn zeta. destruct (donated c + amount <=? MAX_U64); [|done].
  intros [= <-]. eexists st, _, f.
  cbn [store_at funds_at set_store_at set_funds_at set_coin_store].
  split; [done|]. split; [apply lookup_insert_eq|].
  cbn [next_id campaigns]. split; [done|].
  split; [by rewrite length_insert|]. split; [done|].
  split; [apply lookup_insert_eq|].
  split; [by apply N.leb_le|].
  unfold coin.balance.
  cbn [coin_store set_store_at set_funds_at set_coin_store].
  split; [by rewrite lookup_insert_eq|].
  intros a Hne. by rewrite lookup_insert_ne.
Qed.

Lemma donate_moves_amount_witness :
  exists f,
    funds_at flood_partial !! admin_address = Some f /\
    funds_at (fst (donate carol 0 500 flood_partial)) !! admin_address =
      Some (mkCampaignFunds (funds f + 500)).
Proof.
  destruct (donate_moves_amount flood_partial
              (fst (donate carol 0 500 flood_partial)) 0 carol 500)
    as (st & st' & f & _ & _ & _ & _ & Hf & Hf' & _).
  - vm_compute. reflexivity.
  - exists f. split; [exact Hf|exact Hf'].
Defined.

(** X12: [donate] writes before its last check: when the campaign takes
    donations and the donor can pay but [donated] plus the amount does not
    fit in [u64], the call aborts on the overflow after the coins have
    left the donor and entered the treasury; the registry is untouched at
    that point, and the transaction as a whole changes nothing. *)
Theorem donate_overflow_after_transfer (g : Global) (st : CampaignStore)
    (f : CampaignFunds) (i donor amount : N) (c : Campaign) :
  store_at g !! admin_address = Some st ->
  campaigns st !! N.to_nat i = Some c ->
  funds_at g !! admin_address = Some f ->
  completed c = false ->
  amount <= coin.balance donor g ->
  MAX_U64 < donated c + amount ->
  exists g2,
    donate donor i amount g = (g2, Aborted ARITHMETIC_ERROR) /\
    coin.balance donor g2 = coin.balance donor g - amount /\
    funds_at g2 !! admin_address = Some (mkCampaignFunds (funds f + amount)) /\
    store_at g2 = store_at g /\
    step (Donate donor i amount) g = g.
Proof.
  intros Hst Hc Hf Hcomp Hbal Hover.
  apply N.leb_le in Hbal. apply N.leb_gt in Hover.
  unfold step, commit. cbn [entry].
  rewrite donate_eq, Hst, Hc, Hcomp, Hbal, Hf. cbn zeta. rewrite Hover.
  eexists. split; [reflexivity|].
  unfold coin.balance.
  cbn [store_at funds_at coin_store set_funds_at set_coin_store].
  by rewrite !lookup_insert_eq.
Qed.

Lemma donate_overflow_after_transfer_witness :
  exists g2,
    donate alice 0 2 edge_forced = (g2, Aborted ARITHMETIC_ERROR) /\
    coin.balance alice g2 = coin.balance alice edge_forced - 2.
Proof.
  destruct (donate_overflow_after_transfer edge_forced
              (mkCampaignStore
                 [mkCampaign alice flood_title flood_description MAX_U64
                             (MAX_U64 - 1) false true] 1)
              (mkCampaignFunds 0) 0 alice 2
              (mkCampaign alice flood_title flood_description MAX_U64
                          (MAX_U64 - 1) false true))
    as (g2 & Hg2 & Hbal & _).
  - vm_compute. reflexivity.
  - reflexivity.
  - vm_compute. reflexivity.
  - reflexivity.
  - vm_compute. discriminate.
  - vm_compute. reflexivity.
  - exists g2. split; [exact Hg2|exact Hbal].
Defined.

(** X13: a goal of zero is accepted at creation and does not complete
    the campaign by itself; in a reachable state, a donation of amount
    zero by anyone, whatever their balance, is then accepted and
    completes it, and its owner's [withdraw] succeeds after that. *)
Theorem zero_goal_completed_for_free (g : Global) (st : CampaignStore)
    (creator donor : N) (t d : list Byte.byte) :
  reachable g ->
  store_at g !! admin_address = Some st ->
  next_id st < MAX_U64 ->
  let i := vector_length (campaigns st) in
  let g1 := step (CreateCampaign creator t d 0) g in
  let g2 := step (Donate donor i 0) g1 in
  campaign_at g1 i = Some (mkCampaign creator t d 0 0 false false) /\
  campaign_at g2 i = Some (mkCampaign creator t d 0 0 true false) /\
  exists g3, withdraw creator i g2 = (g3, Ok tt).
Proof.
  intros Hreach Hst Hlt i g1 g2.
  assert (reachable g1) as Hreach1.
  { apply reach_step; [done|]. cbn. unfold MAX_U64. lia. }
  assert (campaign_at g1 i = Some (mkCampaign creator t d 0 0 false false))
    as Hc1.
  { unfold g1, step, commit. cbn [entry].
    rewrite create_campaign_eq, Hst. cbn zeta.
    assert ((next_id st + 1 <=? MAX_U64) = true) as ->
      by (apply N.leb_le; lia).
    unfold campaign_at. cbn [store_at set_store_at].
    rewrite lookup_insert_eq. cbn [campaigns]. unfold i, vector_length.
    rewrite Nat2N.id, lookup_app_r by lia. by rewrite Nat.sub_diag. }
  split; [exact Hc1|].
  assert (campaign_at g2 i = Some (mkCampaign creator t d 0 0 true false))
    as Hc2.
  { destruct (donate_campaign donor i 0 g1 _ Hc1)
      as [(_ & _ & Hnew)|(Hrej & _)]; [exact Hnew|].
    exfalso. revert Hrej. unfold accepted. cbn [entry].
    pose proof Hc1 as Hs1. unfold campaign_at in Hs1.
    destruct (store_at g1 !! admin_address) as [st1|] eqn:Hst1; [|done].
    destruct (reachable_solvent g1 Hreach1 st1 Hst1) as (f1 & Hf1 & _).
    rewrite donate_eq, Hst1, Hs1, Hf1. cbn [completed donated].
    assert ((0 <=? coin.balance donor g1) = true) as ->
      by (apply N.leb_le; lia).
    cbn zeta. by assert ((0 + 0 <=? MAX_U64) = true) as -> by done. }
  split; [exact Hc2|].
  assert (reachable g2) as Hreach2.
  { apply reach_step; [done|]. cbn.
    pose proof (reachable_length_bounded g st Hreach Hst) as Hlen.
    fold i in Hlen. split; [exact Hlen|]. unfold MAX_U64. lia. }
  pose proof Hc2 as Hs2. unfold campaign_at in Hs2.
  destruct (store_at g2 !! admin_address) as [st2|] eqn:Hst2; [|done].
  destruct (reachable_solvent g2 Hreach2 st2 Hst2) as (f2 & Hf2 & _).
  rewrite withdraw_eq, Hst2, Hs2, Hf2. cbn [owner completed withdrawn donated].
  rewrite N.eqb_refl. cbn [negb].
  assert ((0 <=? funds f2) = true) as -> by (apply N.leb_le; lia).
  eauto.
Qed.

Lemma zero_goal_completed_for_free_witness :
  campaign_at
    (step (Donate bob 1 0) (step (CreateCampaign carol [] [] 0) flood_paid))
    1 = Some (mkCampaign carol [] [] 0 0 true false).
Proof.
  destruct (zero_goal_completed_for_free flood_paid
              (mkCampaignStore
                 [mkCampaign alice flood_title flood_description 1000 1100
                             true true] 1)
              carol bob [] []) as (_ & H & _).
  - apply reach_step; [apply flood_funded_reachable|]. valid_calls.
  - vm_compute. reflexivity.
  - vm_compute. reflexivity.
  - exact H.
Defined.

(** ** The frontend's hexadecimal encoding *)

Lemma byte_to_hex_checked (b : Byte.byte) :
  match byte_to_hex b with
  | String c1 (String c2 EmptyString) =>
      is_lower_hex c1 && is_lower_hex c2 &&
      match Byte.of_N (16 * hex_value c1 + hex_value c2) with
      | Some b' => Byte.eqb b b'
      | None => false
      end
  | _ => false
  end = true.
Proof. destruct b; vm_compute; reflexivity. Qed.

Lemma byte_to_hex_two (b : Byte.byte) :
  exists c1 c2,
    byte_to_hex b = String c1 (String c2 "") /\
    is_lower_hex c1 = true /\ is_lower_hex c2 = true /\
    Byte.of_N (16 * hex_value c1 + hex_value c2) = Some b.
Proof.
  pose proof (byte_to_hex_checked b) as H.
  destruct (byte_to_hex b) as [|c1 [|c2 [|? ?]]]; try done.
  exists c1, c2. split; [done|].
  apply andb_true_iff in H as [H Hb]. apply andb_true_iff in H as [H1 H2].
  split; [done|]. split; [done|].
  destruct (Byte.of_N (16 * hex_value c1 + hex_value c2)) as [b'|];
    [|done].
  apply Byte.byte_dec_bl in Hb. by subst.
Qed.

Lemma append_cons (c : ascii) (x y : string) :
  String.append (String c x) y = String c (String.append x y).
Proof. reflexivity. Qed.

Lemma concat_empty_cons (x : string) (l : list string) :
  String.concat "" (x :: l) = String.append x (String.concat "" l).
Proof.
  destruct l as [|y l]; cbn [String.concat]; [|done].
  induction x as [|c x IH]; [done|]. rewrite append_cons. by f_equal.
Qed.

Lemma hex_pairs_encoded (bs : list Byte.byte) :
  hex_pairs (String.concat "" (map byte_to_hex bs)) = Some bs.
Proof.
  induction bs as [|b bs IH]; [done|].
  cbn [map]. rewrite concat_empty_cons.
  destruct (byte_to_hex_two b) as (c1 & c2 & -> & _ & _ & Hb).
  rewrite !append_cons. change (String.append "" ?x) with x.
  cbn [hex_pairs]. by rewrite Hb, IH.
Qed.

(** X14: [stringToHex] writes ["0x"] and then exactly two characters per
    byte, each one of [0-9a-f]: the leading zero of a byte below 16 is
    kept, so the literal has 2 + 2n characters for n bytes. *)
Theorem stringToHex_shape (encoded : list Byte.byte) :
  exists body,
    stringToHex encoded = String "0" (String "x" body) /\
    String.length body = (2 * length encoded)%nat /\
    Forall (fun c => is_lower_hex c = true) (String.list_ascii_of_string body).
Proof.
  exists (String.concat "" (map byte_to_hex encoded)).
  split; [done|].
  induction encoded as [|b bs [IHlen IHhex]]; [by split; [|constructor]|].
  cbn [map]. rewrite concat_empty_cons.
  destruct (byte_to_hex_two b) as (c1 & c2 & -> & H1 & H2 & _).
  rewrite !append_cons. change (String.append "" ?x) with x.
  cbn [String.length length String.list_ascii_of_string].
  split; [rewrite IHlen; lia|]. by repeat constructor.
Qed.

(** X15: [stringToHex] loses nothing: two byte sequences with the same
    literal are equal.  (The bytes are read back from the literal two
    digits at a time.) *)
Theorem stringToHex_injective (bs1 bs2 : list Byte.byte) :
  stringToHex bs1 = stringToHex bs2 -> bs1 = bs2.
Proof.
  unfold stringToHex. rewrite !append_cons.
  change (String.append "" ?x) with x. intros [= H].
  apply (f_equal hex_pairs) in H.
  rewrite !hex_pairs_encoded in H. by injection H.
Qed.

Lemma stringToHex_injective_witness :
  flood_title = String.list_byte_of_string "Flood"%string.
Proof.
  apply (stringToHex_injective flood_title
           (String.list_byte_of_string "Flood"%string)).
  vm_compute. reflexivity.
Defined.

(** The literals of the scenario. *)
Example stringToHex_flood : stringToHex flood_title = "0x466c6f6f64"%string.
Proof. vm_compute. reflexivity. Qed.

Example stringToHex_low_bytes :
  stringToHex [Byte.x00; Byte.x0a; Byte.xff] = "0x000aff"%string.
Proof. vm_compute. reflexivity. Qed.
